(** * Servel scraper: name normalisation, leaf extraction, hierarchy walk
      and matrix assembly of [scraper_modular.py], embedded in Rocq.

    Python strings are sequences of Unicode code points and are modelled as
    [list N].  Character classes and case mappings follow the Unicode data
    on the Latin-1 range U+0000..U+00FF (the alphabet of the labels the
    site renders: ASCII, accented vowels, the letter N with tilde), together
    with the white-space code points above that range; any other code point
    is taken to be a symbol without case that is neither a letter nor a
    digit. *)

From Stdlib Require Import List NArith ZArith QArith Bool Ascii String Lia.
From Stdlib Require Import Sorting.Sorted Sorting.Permutation.
Import ListNotations.

Local Open Scope N_scope.
Local Open Scope list_scope.

(* ================================================================= *)
(** ** Python strings *)

Module PyStr.

Definition str := list N.

(** Decoder for the UTF-8 bytes of a string literal of this file. *)
Fixpoint utf8_go (pend : nat) (acc : N) (bs : list N) : str :=
  match bs with
  | [] => []
  | b :: bs' =>
    match pend with
    | O => if b <? 128 then b :: utf8_go 0 0 bs'
           else if b <? 224 then utf8_go 1 (b - 192) bs'
           else if b <? 240 then utf8_go 2 (b - 224) bs'
           else utf8_go 3 (b - 240) bs'
    | S O => (acc * 64 + (b - 128)) :: utf8_go 0 0 bs'
    | S p => utf8_go p (acc * 64 + (b - 128)) bs'
    end
  end.

Definition txt (s : string) : str :=
  utf8_go 0 0 (map N_of_ascii (list_ascii_of_string s)).

Definition entre (lo hi c : N) : bool := (lo <=? c) && (c <=? hi).

(** [str.isspace] on one code point (also the class [\s] of [re]). *)
Definition isspace (c : N) : bool :=
  entre 9 13 c || entre 28 32 c || (c =? 133) || (c =? 160) || (c =? 5760)
  || entre 8192 8202 c || (c =? 8232) || (c =? 8233) || (c =? 8239)
  || (c =? 8287) || (c =? 12288).

Definition es_mayuscula (c : N) : bool :=
  entre 65 90 c || entre 192 214 c || entre 216 222 c.

Definition es_minuscula_par (c : N) : bool :=
  entre 97 122 c || entre 224 246 c || entre 248 254 c.

Definition lower_cp (c : N) : N := if es_mayuscula c then c + 32 else c.

(** Upper-casing may lengthen the text: sharp s becomes "SS". *)
Definition upper_cp (c : N) : str :=
  if es_minuscula_par c then [c - 32]
  else if c =? 223 then [83; 83]
  else if c =? 255 then [376]
  else if c =? 181 then [924]
  else [c].

Definition title_cp (c : N) : str :=
  if c =? 223 then [83; 115] else upper_cp c.

Definition lower (s : str) : str := map lower_cp s.
Definition upper (s : str) : str := flat_map upper_cp s.

(** [str.capitalize]: first character in title case, the rest lower-cased. *)
Definition capitalize (s : str) : str :=
  match s with
  | [] => []
  | c :: r => title_cp c ++ lower r
  end.

Definition isdecimal_cp (c : N) : bool := entre 48 57 c.

Definition isdigit_cp (c : N) : bool :=
  isdecimal_cp c || (c =? 178) || (c =? 179) || (c =? 185).

(** [str.isdigit]: non-empty and made of digits only. *)
Definition isdigit (s : str) : bool :=
  match s with [] => false | _ => forallb isdigit_cp s end.

(** The class [\w] of [re] on text patterns: alphanumerics and underscore. *)
Definition es_palabra (c : N) : bool :=
  entre 48 57 c || entre 65 90 c || (c =? 95) || entre 97 122 c
  || (c =? 170) || (c =? 178) || (c =? 179) || (c =? 181) || (c =? 185)
  || (c =? 186) || entre 188 190 c || entre 192 214 c || entre 216 246 c
  || entre 248 255 c.

Fixpoint str_eqb (a b : str) : bool :=
  match a, b with
  | [], [] => true
  | x :: a', y :: b' => (x =? y) && str_eqb a' b'
  | _, _ => false
  end.

(** Lexicographic order on code points, the order of [<] on Python strings. *)
Fixpoint str_ltb (a b : str) : bool :=
  match a, b with
  | _, [] => false
  | [], _ :: _ => true
  | x :: a', y :: b' => (x <? y) || ((x =? y) && str_ltb a' b')
  end.

Definition str_leb (a b : str) : bool := negb (str_ltb b a).

Fixpoint startswith (s pre : str) {struct pre} : bool :=
  match pre, s with
  | [], _ => true
  | p :: pre', c :: s' => (c =? p) && startswith s' pre'
  | _ :: _, [] => false
  end.

(** [needle in hay]. *)
Fixpoint contiene (hay needle : str) : bool :=
  startswith hay needle
  || match hay with
     | [] => false
     | _ :: hay' => contiene hay' needle
     end.

Fixpoint lstrip (s : str) : str :=
  match s with
  | c :: s' => if isspace c then lstrip s' else s
  | [] => []
  end.

Definition rstrip (s : str) : str := rev (lstrip (rev s)).
Definition strip (s : str) : str := rstrip (lstrip s).

Definition empieza_palabra (s : str) : bool :=
  match s with
  | c :: _ => negb (isspace c)
  | [] => false
  end.

(** [str.split()] without argument: maximal runs of non-blank characters. *)
Fixpoint split (s : str) : list str :=
  match s with
  | [] => []
  | c :: s' =>
    if isspace c then split s'
    else if empieza_palabra s' then
      match split s' with
      | w :: ws => (c :: w) :: ws
      | [] => [[c]]
      end
    else [c] :: split s'
  end.

Fixpoint join (sep : str) (l : list str) : str :=
  match l with
  | [] => []
  | [w] => w
  | w :: l' => w ++ sep ++ join sep l'
  end.

(** [s.replace(c, por)] for a one-character pattern [c]. *)
Definition replace (c : N) (por : str) (s : str) : str :=
  flat_map (fun x => if x =? c then por else [x]) s.

(** [re.sub(r'[^a-zA-Z0-9_]', '_', s)]. *)
Definition es_slug (c : N) : bool :=
  entre 97 122 c || entre 65 90 c || entre 48 57 c || (c =? 95).

Definition sub_no_slug (s : str) : str :=
  map (fun c => if es_slug c then c else 95) s.

(** [re.sub(r'\b' + w + r'\b', por, s)] for a literal word [w]: scan from
    the left; [prev] is the character before the current position and
    [saltar] counts the characters of a match still to be consumed. *)
Definition frontera (prev : option N) (s : str) : bool :=
  let a := match prev with Some p => es_palabra p | None => false end in
  let b := match s with c :: _ => es_palabra c | [] => false end in
  xorb a b.

Definition ultimo (prev : option N) (w : str) : option N :=
  match rev w with
  | c :: _ => Some c
  | [] => prev
  end.

Fixpoint sub_palabra_go (w por : str) (prev : option N) (saltar : nat)
    (s : str) : str :=
  match s with
  | [] => []
  | c :: s' =>
    match saltar with
    | S k => sub_palabra_go w por (Some c) k s'
    | O =>
      if frontera prev s && startswith s w
         && frontera (ultimo prev w) (skipn (List.length w) s)
      then por ++ sub_palabra_go w por (Some c) (List.length w - 1) s'
      else c :: sub_palabra_go w por (Some c) 0 s'
    end
  end.

Definition sub_palabra (w por s : str) : str := sub_palabra_go w por None 0 s.

End PyStr.
Import PyStr.

(* ================================================================= *)
(** ** Python dictionaries *)

(** Keys with a decidable comparison (the hashable keys of a [dict]). *)
Class Clave (K : Type) := clave_eqb : K -> K -> bool.

#[export] Instance clave_str : Clave str := str_eqb.
#[export] Instance clave_par : Clave (str * str) :=
  fun a b => str_eqb (fst a) (fst b) && str_eqb (snd a) (snd b).

Module PyDict.
Section Dict.
Context {K V : Type} `{Clave K}.

(** A [dict] keeps its items in insertion order. *)
Definition dict := list (K * V).

Fixpoint dict_get (k : K) (d : dict) : option V :=
  match d with
  | [] => None
  | (k', v) :: d' => if clave_eqb k k' then Some v else dict_get k d'
  end.

Definition dict_in (k : K) (d : dict) : bool :=
  match dict_get k d with Some _ => true | None => false end.

(** [d[k] = v]: overwrite in place, or append a new item. *)
Fixpoint dict_set (k : K) (v : V) (d : dict) : dict :=
  match d with
  | [] => [(k, v)]
  | (k', v') :: d' =>
    if clave_eqb k k' then (k', v) :: d' else (k', v') :: dict_set k v d'
  end.

Definition dict_keys (d : dict) : list K := map fst d.

(** Python [set.update]: a set is kept as a duplicate-free list. *)
Definition set_in (k : K) (s : list K) : bool := existsb (clave_eqb k) s.

Definition set_add (s : list K) (k : K) : list K :=
  if set_in k s then s else s ++ [k].

Definition set_update (s : list K) (ks : list K) : list K :=
  fold_left set_add ks s.
End Dict.
Arguments dict : clear implicits.
End PyDict.
Import PyDict.

(* ================================================================= *)
(** ** Name normaliser *)

Definition excepciones : list str :=
  Eval cbv in map txt
    ["II"; "III"; "IV"; "VI"; "VII"; "X"; "XIV"; "XV"; "XVI"; "XVIII"; "XIX"]%string.

Definition enie_min : N := 241.
Definition enie_may : N := 209.

(** Body of the loop over [palabras] in [normalizar_nombre_comuna]. *)
Definition capitalizar_palabra (palabra : str) : str :=
  if set_in (upper palabra) excepciones then upper palabra
  else if startswith palabra [enie_min] then enie_may :: capitalize (skipn 1 palabra)
  else capitalize palabra.

Definition correcciones : dict str str :=
  Eval cbv in map (fun p => (txt (fst p), txt (snd p)))
    [("De", "de"); ("Del", "del"); ("La", "la"); ("Las", "las");
     ("Los", "los"); ("Y", "y"); ("E", "e"); ("En", "en"); ("Con", "con")]%string.

Definition nombres_especificos : dict str str :=
  Eval cbv in map (fun s => (txt s, txt s))
    ["Arica"; "Iquique"; "Antofagasta"; "Copiapó"; "La Serena"; "Coquimbo";
     "Valparaíso"; "Viña del Mar"; "Santiago"; "Rancagua"; "Talca"; "Chillán";
     "Concepción"; "Temuco"; "Valdivia"; "Puerto Montt"; "Coyhaique";
     "Punta Arenas"; "Ñuñoa"; "Providencia"; "Las Condes"; "Maipú";
     "San Bernardo"; "Puente Alto"]%string.

Definition aplicar_correcciones (nombre : str) : str :=
  fold_left (fun n ic => sub_palabra (fst ic) (snd ic) n) correcciones nombre.

(** The value of [nombre_normalizado] before the table of proper names
    is consulted. *)
Definition nombre_calculado (nombre_comuna : str) : str :=
  let nombre_minusculas := lower nombre_comuna in
  let palabras := split nombre_minusculas in
  let palabras_capitalizadas := map capitalizar_palabra palabras in
  aplicar_correcciones (join [32] palabras_capitalizadas).

Definition normalizar_nombre_comuna (nombre_comuna : str) : str :=
  let nombre_normalizado := nombre_calculado nombre_comuna in
  match dict_get nombre_normalizado nombres_especificos with
  | Some v => v
  | None => nombre_normalizado
  end.

Definition mapeo_especial : dict str str :=
  Eval cbv in map (fun p => (txt (fst p), txt (snd p)))
    [("METROPOLITANA DE SANTIAGO", "Metropolitana");
     ("DEL LIBERTADOR GENERAL BERNARDO O'HIGGINS", "Libertador");
     ("DEL MAULE", "Maule");
     ("DEL BIOBIO", "Biobío");
     ("DE ARICA Y PARINACOTA", "Arica y Parinacota");
     ("DE TARAPACA", "Tarapacá");
     ("DE ANTOFAGASTA", "Antofagasta");
     ("DE ATACAMA", "Atacama");
     ("DE COQUIMBO", "Coquimbo");
     ("DE VALPARAISO", "Valparaíso");
     ("DE ÑUBLE", "Ñuble");
     ("DE LA ARAUCANIA", "La Araucanía");
     ("DE LOS RIOS", "Los Ríos");
     ("DE LOS LAGOS", "Los Lagos");
     ("DE AYSEN DEL GENERAL CARLOS IBAÑEZ DEL CAMPO", "Aysén");
     ("DE MAGALLANES Y DE LA ANTARTICA CHILENA", "Magallanes")]%string.

(** [re.sub(r'^(DE|DEL|DE LA|DE LOS)\s+', '', s, flags=re.IGNORECASE)]:
    the alternatives are tried in order at the start of the text; the first
    one followed by at least one blank is removed with all those blanks. *)
Fixpoint startswith_ci (s pre : str) {struct pre} : bool :=
  match pre, s with
  | [], _ => true
  | p :: pre', c :: s' => (lower_cp c =? lower_cp p) && startswith_ci s' pre'
  | _ :: _, [] => false
  end.

Definition prefijos_region : list str :=
  Eval cbv in map txt ["DE"; "DEL"; "DE LA"; "DE LOS"]%string.

Definition empieza_blanco (s : str) : bool :=
  match s with
  | c :: _ => isspace c
  | [] => false
  end.

Fixpoint quitar_prefijo (alts : list str) (s : str) : str :=
  match alts with
  | [] => s
  | a :: alts' =>
    let resto := skipn (List.length a) s in
    if startswith_ci s a && empieza_blanco resto then lstrip resto
    else quitar_prefijo alts' s
  end.

Definition conectores_region : list str :=
  Eval cbv in map txt ["Y"; "O"; "DE"; "DEL"]%string.

Definition normalizar_nombre_region (nombre_region : str) : str :=
  match dict_get (upper nombre_region) mapeo_especial with
  | Some v => v
  | None =>
    let nombre_normalizado := quitar_prefijo prefijos_region nombre_region in
    let palabras := split nombre_normalizado in
    join [32]
      match palabras with
      | [] => []
      | p0 :: resto =>
        capitalize p0
        :: map (fun p => if set_in (upper p) conectores_region
                         then lower p else capitalize p) resto
      end
  end.

Definition candidato_desconocido : str :=
  Eval cbv in txt "candidato_desconocido".

(** First loop of [simplificar_nombre_candidato]: exact match. *)
Fixpoint buscar_exacta (nombre_upper : str) (items : dict str str)
    : option str :=
  match items with
  | [] => None
  | (nombre_largo, nombre_corto) :: items' =>
    if str_eqb nombre_upper nombre_largo then Some nombre_corto
    else buscar_exacta nombre_upper items'
  end.

(** Second loop: the first key contained in the upper-cased label. *)
Fixpoint buscar_parcial (nombre_upper : str) (items : dict str str)
    : option str :=
  match items with
  | [] => None
  | (nombre_largo, nombre_corto) :: items' =>
    if contiene nombre_upper nombre_largo then Some nombre_corto
    else buscar_parcial nombre_upper items'
  end.

Definition simplificar_nombre_candidato (MAPEO_CANDIDATOS : dict str str)
    (nombre_completo : str) : str :=
  let nombre_upper := strip (upper nombre_completo) in
  match buscar_exacta nombre_upper MAPEO_CANDIDATOS with
  | Some corto => corto
  | None =>
    match buscar_parcial nombre_upper MAPEO_CANDIDATOS with
    | Some corto => corto
    | None =>
      match rev (split nombre_completo) with
      | ultima :: _ => sub_no_slug (lower ultima)
      | [] => candidato_desconocido
      end
    end
  end.

(* ================================================================= *)
(** ** Numbers read from cells *)

(** A Python [float] is represented by the exact decimal it was read from,
    as a rational in lowest terms; the rounding of that decimal to the
    nearest binary64, and its overflow to infinity, are left implicit, on
    both sides of every equation: two decimals that round to the same
    binary64 are kept apart here. *)
Inductive pyfloat :=
| FFin (q : Q)
| FInf (negativo : bool)
| FNan.

Definition cero_float : pyfloat := FFin 0.

Fixpoint valor_digitos (acc : Z) (ds : str) : Z :=
  match ds with
  | [] => acc
  | d :: ds' => valor_digitos (10 * acc + Z.of_N (d - 48)) ds'
  end.

(** [int(s)] for a text on which [s.isdigit()] holds: the conversion
    raises [ValueError] (here [None]) on digits that are not decimal, such
    as the superscript two, and on a text of more than 4300 digits, the
    default limit of the interpreter. *)
Definition py_int (s : str) : option Z :=
  if forallb isdecimal_cp s && (Z.of_nat (List.length s) <=? 4300)%Z
  then Some (valor_digitos 0 s) else None.

(** Underscores of a numeric literal: each one stands between two digits. *)
Fixpoint quitar_guiones (prev : N) (s : str) : option str :=
  match s with
  | [] => if prev =? 95 then None else Some []
  | c :: s' =>
    if c =? 95 then
      if isdecimal_cp prev then quitar_guiones c s' else None
    else if (prev =? 95) && negb (isdecimal_cp c) then None
    else option_map (cons c) (quitar_guiones c s')
  end.

Fixpoint tomar_digitos (s : str) : str * str :=
  match s with
  | c :: s' =>
    if isdecimal_cp c then let (ds, r) := tomar_digitos s' in (c :: ds, r)
    else ([], s)
  | [] => ([], [])
  end.

Definition tomar_signo (s : str) : bool * str :=
  match s with
  | 45 :: s' => (true, s')
  | 43 :: s' => (false, s')
  | _ => (false, s)
  end.

Definition decimal (negativo : bool) (mantisa : Z) (exponente : Z) : pyfloat :=
  let m := if negativo then (- mantisa)%Z else mantisa in
  FFin (if (0 <=? exponente)%Z then inject_Z (m * 10 ^ exponente)
        else Qred (Qmake m (Z.to_pos (10 ^ (- exponente))))).

(** [float(s)]: blanks stripped, then
    [sign] (inf | infinity | nan | digits [. digits] [e [sign] digits]);
    [None] stands for [ValueError]. *)
Definition py_float (s : str) : option pyfloat :=
  match quitar_guiones 0 (strip s) with
  | None => None
  | Some s1 =>
    let (neg, s2) := tomar_signo s1 in
    let min := lower s2 in
    if str_eqb min [105; 110; 102] || str_eqb min [105; 110; 102; 105; 110; 105; 116; 121]
    then Some (FInf neg)
    else if str_eqb min [110; 97; 110] then Some FNan
    else
      let (ent, r1) := tomar_digitos s2 in
      let (frac, r2) :=
        match r1 with
        | 46 :: r => tomar_digitos r
        | _ => ([], r1)
        end in
      let mantisa := valor_digitos 0 (ent ++ frac) in
      let escala := Z.of_nat (List.length frac) in
      match ent ++ frac, r2 with
      | [], _ => None
      | _ :: _, [] => Some (decimal neg mantisa (- escala))
      | _ :: _, e :: r3 =>
        if (e =? 101) || (e =? 69) then
          let (eneg, r4) := tomar_signo r3 in
          let (ed, r5) := tomar_digitos r4 in
          match ed, r5 with
          | _ :: _, [] =>
            let ex := valor_digitos 0 ed in
            Some (decimal neg mantisa ((if eneg then - ex else ex) - escala))
          | _, _ => None
          end
        else None
      end
  end.

(* ================================================================= *)
(** ** Leaf extractor *)

(** One entry of an entity record: [{'votos': ..., 'porcentaje': ...}]. *)
Record medida := { votos : Z; porcentaje : pyfloat }.

Definition registro := dict str medida.

Definition k_blanco : str := Eval cbv in txt "blanco".
Definition k_nulo : str := Eval cbv in txt "nulo".
Definition k_emitidos : str := Eval cbv in txt "emitidos".

Definition palabras_no_candidato : list str :=
  Eval cbv in map txt ["TOTAL"; "VOTACIÓN"; "CANDIDATO"; "PARTIDO"]%string.

(** [_procesar_fila]: [celdas] holds the visible text of each cell.  The
    two dictionaries are updated in place by the source and returned here.
    A [ValueError] or [IndexError] leaves both as they were. *)
Definition _procesar_fila (MAPEO_CANDIDATOS : dict str str)
    (celdas : list str) (datos_candidatos datos_totales : registro)
    : registro * registro :=
  match nth_error celdas 0, nth_error celdas 1, nth_error celdas 2 with
  | Some c0, Some c1, Some c2 =>
    let nombre := strip c0 in
    let votos_texto := replace 46 [] (strip c1) in
    let porcentaje_texto := replace 44 [46] (replace 37 [] (strip c2)) in
    match (if isdigit votos_texto then py_int votos_texto else Some 0%Z) with
    | None => (datos_candidatos, datos_totales)
    | Some votos =>
      let porcentaje :=
        match porcentaje_texto with
        | [] => cero_float
        | _ :: _ =>
          match py_float porcentaje_texto with
          | Some f => f
          | None => cero_float
          end
        end in
      let m := {| votos := votos; porcentaje := porcentaje |} in
      let nombre_upper := upper nombre in
      if contiene nombre_upper (txt "BLANCO") then
        (datos_candidatos, dict_set k_blanco m datos_totales)
      else if contiene nombre_upper (txt "NULO") then
        (datos_candidatos, dict_set k_nulo m datos_totales)
      else if contiene nombre_upper (txt "EMITIDO")
              || contiene nombre_upper (txt "TOTAL") then
        (datos_candidatos, dict_set k_emitidos m datos_totales)
      else if negb (str_eqb nombre [])
              && negb (existsb (contiene nombre_upper) palabras_no_candidato) then
        (dict_set (simplificar_nombre_candidato MAPEO_CANDIDATOS nombre) m
                  datos_candidatos,
         datos_totales)
      else (datos_candidatos, datos_totales)
    end
  | _, _, _ => (datos_candidatos, datos_totales)
  end.

(** What the session shows: a rendered table with its visible text and,
    for each [tr], the texts of its [td] cells; [filas_td] is [None] when
    the session raises while the rows or the cells of the table are read
    (a stale element, a lost connection). *)
Record tabla := {
  is_displayed : bool;
  text : str;
  filas_td : option (list (list str))
}.

(** Answer of the page once a leaf is chosen in the selector. *)
Inductive respuesta :=
| ErrorSeleccion              (* driving the selector raised *)
| SinTabla                    (* the wait for a table timed out *)
| ErrorSesion                 (* listing or testing the tables raised *)
| Tablas (ts : list tabla).

Definition marcadores : list str :=
  Eval cbv in map txt
    ["CANDIDATO"; "VOTOS"; "PORCENTAJE"; "PARTIDO"; "BLANCO"; "NULO"; "EMITIDO"]%string.

Definition es_tabla_resultados (t : tabla) : bool :=
  is_displayed t && existsb (contiene (upper (text t))) marcadores.

(** The first displayed table whose text holds a marker.  Only the
    time-out of the wait is handled here; on [ErrorSesion] the source
    raises to its caller, which is where that answer is dealt with. *)
Definition _encontrar_tabla_resultados (r : respuesta) : option tabla :=
  match r with
  | Tablas ts => find es_tabla_resultados ts
  | _ => None
  end.

(** [None] stands for the pair [(None, None)]: no table, or an exception
    of the search or of the reading of rows and cells, which the handler
    of this function logs and swallows. *)
Definition _procesar_tabla_resultados (MAPEO_CANDIDATOS : dict str str)
    (r : respuesta) : option (registro * registro) :=
  match r with
  | ErrorSesion => None
  | _ =>
    match _encontrar_tabla_resultados r with
    | None => None
    | Some t =>
      match filas_td t with
      | None => None
      | Some filas =>
        Some (fold_left
                (fun acc celdas =>
                   if (3 <=? List.length celdas)%nat
                   then _procesar_fila MAPEO_CANDIDATOS celdas (fst acc) (snd acc)
                   else acc)
                filas ([], []))
      end
    end
  end.

Definition _extraer_datos_comuna (MAPEO_CANDIDATOS : dict str str)
    (r : respuesta) : option (registro * registro) :=
  match r with
  | ErrorSeleccion => None
  | _ => _procesar_tabla_resultados MAPEO_CANDIDATOS r
  end.

(* ================================================================= *)
(** ** Accumulator and matrix assembly *)

(** Value stored for a leaf: [{'candidatos': ..., 'totales': ...}]. *)
Record hoja := { candidatos : registro; totales : registro }.

(** [datos_completos], keyed by (comuna, region), both normalised. *)
Definition almacen := dict (str * str) hoja.

(** [sorted] and [sort_values] as insertion sort: on keys that are
    pairwise distinct every sorting procedure yields the same list. *)
Section Ordenar.
Context {A : Type} (leb : A -> A -> bool).

Fixpoint insertar (x : A) (l : list A) : list A :=
  match l with
  | [] => [x]
  | y :: l' => if leb x y then x :: l else y :: insertar x l'
  end.

Definition ordenar (l : list A) : list A := fold_right insertar [] l.
End Ordenar.

Definition sorted (l : list str) : list str := ordenar str_leb l.

Inductive celda := CInt (z : Z) | CFloat (f : pyfloat).

(** A row [[comuna, region, v1, p1, v2, p2, ...]]. *)
Record fila := { f_comuna : str; f_region : str; f_valores : list celda }.

Record dataframe := { columnas : list str; filas : list fila }.

Definition sufijo_votos : str := Eval cbv in txt "_votos".
Definition sufijo_pct : str := Eval cbv in txt "_pct".

Definition todos_nombres (campo : hoja -> registro) (datos_completos : almacen)
    : list str :=
  sorted (fold_left (fun acc kv => set_update acc (dict_keys (campo (snd kv))))
                    datos_completos []).

Definition columnas_de (nombres : list str) : list str :=
  flat_map (fun n => [n ++ sufijo_votos; n ++ sufijo_pct]) nombres.

Definition par_de (r : registro) (nombre : str) : list celda :=
  match dict_get nombre r with
  | Some m => [CInt (votos m); CFloat (porcentaje m)]
  | None => [CInt 0; CFloat cero_float]
  end.

Definition valores_de (nombres : list str) (r : registro) : list celda :=
  flat_map (par_de r) nombres.

(** Order of [sort_values(['region', 'comuna'])]. *)
Definition fila_leb (a b : fila) : bool :=
  str_ltb (f_region a) (f_region b)
  || (str_eqb (f_region a) (f_region b) && str_leb (f_comuna a) (f_comuna b)).

(** Body of the loop over the items of [datos_completos]. *)
Definition fila_de (todos_candidatos todos_totales : list str)
    (kv : (str * str) * hoja) : fila :=
  {| f_comuna := fst (fst kv);
     f_region := snd (fst kv);
     f_valores := valores_de todos_candidatos (candidatos (snd kv))
                  ++ valores_de todos_totales (totales (snd kv)) |}.

Definition _crear_dataframe_final (datos_completos : almacen) : dataframe :=
  let todos_candidatos := todos_nombres candidatos datos_completos in
  let todos_totales := todos_nombres totales datos_completos in
  let columnas :=
    [txt "comuna"; txt "region"]
    ++ columnas_de todos_candidatos ++ columnas_de todos_totales in
  let filas := map (fila_de todos_candidatos todos_totales) datos_completos in
  {| columnas := columnas; filas := ordenar fila_leb filas |}.

(* ================================================================= *)
(** ** Hierarchy walker *)

(** The surroundings of a run: the remote site as the walker sees it
    through the session, and the disk the snapshots are written to. *)
Record sitio := {
  navegador_disponible : bool;              (* some browser can be started *)
  pagina_carga : bool;                      (* [driver.get] returns *)
  filtro_activable : bool;                  (* the filter button is clickable *)
  opciones_region : option (list str);      (* option texts; [None]: lookup raises *)
  opciones_comuna : str -> option (list str);
  pagina_comuna : str -> str -> respuesta;  (* selected region, chosen leaf *)
  progreso_escribible : Z -> bool           (* the snapshot taken at this count
                                               of extracted leaves can be written *)
}.

(** Messages of the leaf loop, in the order they are logged. *)
Inductive evento :=
| Procesando (comuna region : str)
| Extraida (comuna : str) (n_candidatos : nat) (total : Z)
| SinDatos (comuna : str)
| LimiteAlcanzado.

(** The fields of [self] that change during a run, and the region that the
    browser currently has selected. *)
Record scraper := {
  datos_completos : almacen;
  comunas_procesadas : Z;
  comunas_con_error : Z;
  region_activa : str;
  bitacora : list evento;
  progreso_parcial : list (Z * dataframe)
}.

Definition scraper_inicial : scraper :=
  {| datos_completos := []; comunas_procesadas := 0; comunas_con_error := 0;
     region_activa := []; bitacora := []; progreso_parcial := [] |}.

Definition anotar (e : evento) (s : scraper) : scraper :=
  {| datos_completos := datos_completos s;
     comunas_procesadas := comunas_procesadas s;
     comunas_con_error := comunas_con_error s;
     region_activa := region_activa s;
     bitacora := bitacora s ++ [e];
     progreso_parcial := progreso_parcial s |}.

Definition seleccionar_region (r : str) (s : scraper) : scraper :=
  {| datos_completos := datos_completos s;
     comunas_procesadas := comunas_procesadas s;
     comunas_con_error := comunas_con_error s;
     region_activa := r;
     bitacora := bitacora s;
     progreso_parcial := progreso_parcial s |}.

Definition seleccionar_texto : str := Eval cbv in txt "Seleccionar".

Definition opciones_validas (l : list str) : list str :=
  filter (fun t => negb (str_eqb t []) && negb (str_eqb t seleccionar_texto)) l.

Section Recorrido.
Variable web : sitio.
Variable max_comunas : option Z.
Variable MAPEO_CANDIDATOS : dict str str.

(** Truth value of [self.max_comunas]: [None] and [0] are false. *)
Definition limite : option Z :=
  match max_comunas with
  | Some n => if (n =? 0)%Z then None else Some n
  | None => None
  end.

Definition limite_alcanzado (s : scraper) : bool :=
  match limite with
  | Some n => (n <=? comunas_procesadas s)%Z
  | None => false
  end.

(** [comunas[:n]]: a negative bound counts from the end. *)
Definition recortar (n : Z) (comunas : list str) : list str :=
  if (0 <=? n)%Z then firstn (Z.to_nat n) comunas
  else firstn (Z.to_nat (Z.of_nat (List.length comunas) + n)) comunas.

Definition _obtener_regiones : list str :=
  match opciones_region web with
  | Some l => opciones_validas l
  | None => []
  end.

(** Selects the region and reads the leaf selector.  When either step
    raises, the region is skipped, so the selection left behind is never
    read. *)
Definition _obtener_comunas_region (s : scraper) (region_nombre : str)
    : scraper * list str :=
  match opciones_comuna web region_nombre with
  | Some l => (seleccionar_region region_nombre s, opciones_validas l)
  | None => (s, [])
  end.

(** Writes a snapshot of the matrix, named after the count of extracted
    leaves.  When creating the folder or writing the file raises, the
    error is logged and swallowed: no snapshot is left and no field
    changes. *)
Definition _guardar_progreso_parcial (s : scraper) : scraper :=
  match datos_completos s with
  | [] => s
  | _ :: _ =>
    if progreso_escribible web (comunas_procesadas s) then
      {| datos_completos := datos_completos s;
         comunas_procesadas := comunas_procesadas s;
         comunas_con_error := comunas_con_error s;
         region_activa := region_activa s;
         bitacora := bitacora s;
         progreso_parcial :=
           progreso_parcial s
           ++ [(comunas_procesadas s, _crear_dataframe_final (datos_completos s))] |}
    else s
  end.

(** One leaf attempt.  Every call inside the [try] block of the source
    handles its own exceptions, so the outer [except] branch is not
    reached and has no counterpart here. *)
Definition _procesar_comuna_individual (s : scraper)
    (comuna_nombre region_normalizada : str) : scraper :=
  let comuna_normalizada := normalizar_nombre_comuna comuna_nombre in
  let s := anotar (Procesando comuna_normalizada region_normalizada) s in
  match _extraer_datos_comuna MAPEO_CANDIDATOS
          (pagina_comuna web (region_activa s) comuna_nombre) with
  | Some (((_ :: _) as datos_candidatos), datos_totales) =>
    let clave := (comuna_normalizada, region_normalizada) in
    let s :=
      {| datos_completos :=
           dict_set clave {| candidatos := datos_candidatos;
                             totales := datos_totales |} (datos_completos s);
         comunas_procesadas := comunas_procesadas s + 1;
         comunas_con_error := comunas_con_error s;
         region_activa := region_activa s;
         bitacora := bitacora s;
         progreso_parcial := progreso_parcial s |} in
    let s := anotar (Extraida comuna_normalizada (List.length datos_candidatos)
                              (comunas_procesadas s)) s in
    if (comunas_procesadas s mod 10 =? 0)%Z
    then _guardar_progreso_parcial s else s
  | _ =>
    anotar (SinDatos comuna_normalizada)
      {| datos_completos := datos_completos s;
         comunas_procesadas := comunas_procesadas s;
         comunas_con_error := comunas_con_error s + 1;
         region_activa := region_activa s;
         bitacora := bitacora s;
         progreso_parcial := progreso_parcial s |}
  end.

(** The [for comuna_nombre in comunas] loop with its [break]. *)
Fixpoint bucle_comunas (s : scraper) (region_normalizada : str)
    (comunas : list str) : scraper :=
  match comunas with
  | [] => s
  | comuna_nombre :: resto =>
    if limite_alcanzado s then anotar LimiteAlcanzado s
    else bucle_comunas
           (_procesar_comuna_individual s comuna_nombre region_normalizada)
           region_normalizada resto
  end.

Definition _procesar_region (s : scraper) (region_nombre : str) : scraper :=
  let region_normalizada := normalizar_nombre_region region_nombre in
  let (s, comunas) := _obtener_comunas_region s region_nombre in
  match comunas with
  | [] => s
  | _ :: _ =>
    let comunas :=
      match limite with
      | Some n =>
        if (n <? Z.of_nat (List.length comunas))%Z
        then recortar n comunas else comunas
      | None => comunas
      end in
    bucle_comunas s region_normalizada comunas
  end.

(** The [for region in regiones] loop with its [break]. *)
Fixpoint bucle_regiones (s : scraper) (regiones : list str) : scraper :=
  match regiones with
  | [] => s
  | region :: resto =>
    if limite_alcanzado s then s
    else bucle_regiones (_procesar_region s region) resto
  end.

Inductive motivo :=
| SinNavegador      (* no browser could be initialised *)
| FalloNavegacion   (* loading the page raised *)
| FalloFiltro       (* the filter could not be activated *)
| SinRegiones.      (* "No se pudieron obtener las regiones" *)

Inductive resultado :=
| Excepcion (m : motivo)
| Retorno (df_final : dataframe).

(** The whole run.  The three set-up steps raise to the caller; an empty
    list of regions is turned into an exception.  Writing the final files
    ([_guardar_resultados_finales]) swallows its own errors and, like
    closing the browser, leaves the result as it is. *)
Definition ejecutar_extraccion (s : scraper) : scraper * resultado :=
  if negb (navegador_disponible web) then (s, Excepcion SinNavegador)
  else if negb (pagina_carga web) then (s, Excepcion FalloNavegacion)
  else if negb (filtro_activable web) then (s, Excepcion FalloFiltro)
  else
    match _obtener_regiones with
    | [] => (s, Excepcion SinRegiones)
    | (_ :: _) as regiones =>
      let s := bucle_regiones s regiones in
      (s, Retorno (_crear_dataframe_final (datos_completos s)))
    end.
End Recorrido.

(* ================================================================= *)
(** ** Observations used by the statements below *)

(** Entity normalisation as the specification words it: an exact match
    regardless of case, then a key contained in the upper-cased label,
    then the slug of the last token. *)
Fixpoint buscar_sin_caja (etiqueta : str) (items : dict str str) : option str :=
  match items with
  | [] => None
  | (largo, corto) :: items' =>
    if str_eqb (upper etiqueta) (upper largo) then Some corto
    else buscar_sin_caja etiqueta items'
  end.

Definition normalize_entity_spec (aliases : dict str str) (etiqueta : str) : str :=
  match buscar_sin_caja etiqueta aliases with
  | Some corto => corto
  | None =>
    match buscar_parcial (upper etiqueta) aliases with
    | Some corto => corto
    | None =>
      match rev (split etiqueta) with
      | ultima :: _ => sub_no_slug (lower ultima)
      | [] => candidato_desconocido
      end
    end
  end.

(** Leaf attempts started, read off the log. *)
Definition es_intento (e : evento) : bool :=
  match e with Procesando _ _ => true | _ => false end.

Definition es_exito (e : evento) : bool :=
  match e with Extraida _ _ _ => true | _ => false end.

Definition es_fallo (e : evento) : bool :=
  match e with SinDatos _ => true | _ => false end.

Definition intentos (log : list evento) : nat := List.length (filter es_intento log).
Definition exitos (log : list evento) : nat := List.length (filter es_exito log).
Definition fallos (log : list evento) : nat := List.length (filter es_fallo log).

(** Every attempt of the log starts while fewer than [n] leaves have been
    extracted; [previos] counts the extractions before the log. *)
Fixpoint dentro_del_limite (n previos : Z) (log : list evento) : bool :=
  match log with
  | [] => true
  | Procesando _ _ :: l => (previos <? n)%Z && dentro_del_limite n previos l
  | Extraida _ _ _ :: l => dentro_del_limite n (previos + 1) l
  | _ :: l => dentro_del_limite n previos l
  end.

(** A dictionary is well formed when no key occurs twice. *)
Definition dict_ok {K V : Type} (d : dict K V) : Prop := NoDup (dict_keys d).

Definition identidad (f : fila) : str * str := (f_comuna f, f_region f).

Definition str_lt (a b : str) : Prop := str_ltb a b = true.

(** Strict order of the rows: region first, then leaf. *)
Definition fila_lt (a b : fila) : Prop :=
  str_lt (f_region a) (f_region b)
  \/ (f_region a = f_region b /\ str_lt (f_comuna a) (f_comuna b)).

(** Keys whose comparison decides equality. *)
Class ClaveOk (K : Type) `{Clave K} :=
  clave_eqb_eq : forall a b : K, clave_eqb a b = true <-> a = b.

(** The table of the extraction scenario. *)
Definition filas_escenario : list (list str) :=
  Eval cbv in
    [[txt "JUAN PEREZ"; txt "1.234"; txt "45,6"];
     [txt "BLANCO"; txt "10"; txt "0,4"];
     [txt "TOTAL EMITIDOS"; txt "1.244"; txt "100,0"]].

Definition k_perez : str := Eval cbv in txt "perez".

Definition tres_celdas (celdas : list str) : bool := (3 <=? List.length celdas)%nat.



Definition medida_cero : medida := {| votos := 0; porcentaje := cero_float |}.

(** A small store used to exercise the statements. *)
Definition almacen_ejemplo : almacen :=
  Eval cbv in
    [((txt "Talca", txt "Maule"),
      {| candidatos := [(txt "perez", {| votos := 7; porcentaje := decimal false 70 0 |})];
         totales := [(k_blanco, {| votos := 3; porcentaje := decimal false 30 0 |})] |});
     ((txt "Arica", txt "Arica y Parinacota"),
      {| candidatos := [(txt "soto", {| votos := 5; porcentaje := decimal false 100 0 |})];
         totales := [] |})].

Definition hoja_ejemplo : hoja :=
  Eval cbv in
    {| candidatos := [(txt "perez", {| votos := 1; porcentaje := decimal false 50 0 |});
                      (txt "mora", {| votos := 1; porcentaje := decimal false 50 0 |})];
       totales := [(k_blanco, medida_cero)] |}.

Definition clave_ejemplo : str * str := Eval cbv in (txt "Iquique", txt "Tarapacá").

(** Sites used to exercise the walker: two regions of three and four
    leaves; every leaf shows the scenario table, or none does. *)
Definition tabla_escenario : tabla :=
  Eval cbv in
    {| is_displayed := true; text := txt "Candidato Votos Porcentaje";
       filas_td := Some filas_escenario |}.

Definition sitio_dos_regiones (r : respuesta) : sitio :=
  {| navegador_disponible := true;
     pagina_carga := true;
     filtro_activable := true;
     opciones_region := Some [seleccionar_texto; txt "DEL MAULE"; txt "DE ATACAMA"];
     opciones_comuna :=
       fun region =>
         if str_eqb region (txt "DEL MAULE")
         then Some (map txt ["TALCA"; "CURICO"; "LINARES"]%string)
         else Some (map txt ["COPIAPO"; "CALDERA"; "VALLENAR"; "HUASCO"]%string);
     pagina_comuna := fun _ _ => r;
     progreso_escribible := fun _ => true |}.

(** A site whose filter button never becomes clickable. *)
Definition sitio_sin_filtro : sitio :=
  {| navegador_disponible := true;
     pagina_carga := true;
     filtro_activable := false;
     opciones_region := Some [seleccionar_texto; txt "DEL MAULE"];
     opciones_comuna := fun _ => Some [txt "TALCA"];
     pagina_comuna := fun _ _ => Tablas [tabla_escenario];
     progreso_escribible := fun _ => true |}.

Definition abortada (r : resultado) : bool :=
  match r with Excepcion _ => true | Retorno _ => false end.

(** What holds of a walker state under a cap [n]: the log respects the
    cap and the counters agree with the log. *)
Definition bajo_limite (n : Z) (s : scraper) : Prop :=
  dentro_del_limite n 0 (bitacora s) = true
  /\ Z.of_nat (exitos (bitacora s)) = comunas_procesadas s
  /\ Z.of_nat (fallos (bitacora s)) = comunas_con_error s
  /\ intentos (bitacora s) = (exitos (bitacora s) + fallos (bitacora s))%nat
  /\ (comunas_procesadas s <= n)%Z.




Definition no_blanco (c : N) : bool := negb (isspace c).

(** ** Readers of the column names *)

(** [s.endswith(suf)]. *)
Definition endswith (s suf : str) : bool := startswith (rev s) (rev suf).

(** [s.replace(old, new)] for a non-empty [old]: occurrences are taken
    from the left and do not overlap; [saltar] counts the characters of an
    occurrence still to be consumed. *)
Fixpoint replace_go (old new : str) (saltar : nat) (s : str) : str :=
  match s with
  | [] => []
  | c :: s' =>
    match saltar with
    | S k => replace_go old new k s'
    | O =>
      if startswith s old
      then new ++ replace_go old new (List.length old - 1) s'
      else c :: replace_go old new 0 s'
    end
  end.

Definition replace_str (old new s : str) : str := replace_go old new 0 s.

Definition nombres_de_totales : list str := [k_blanco; k_nulo; k_emitidos].

(** The two column lists of [_mostrar_resumen_final] and of
    [_crear_archivo_metadatos]. *)
Definition columnas_candidatos (cols : list str) : list str :=
  filter (fun col => endswith col sufijo_votos
                     && negb (existsb (contiene col) nombres_de_totales)) cols.

Definition columnas_totales (cols : list str) : list str :=
  filter (fun col => endswith col sufijo_votos
                     && existsb (contiene col) nombres_de_totales) cols.

Definition ignored : list str :=
  Eval cbv in map txt ["blanco"; "nulo"; "emitidos"; "total"]%string.

(** [detect_candidates] of the dashboard ([app.py]), on the column names
    of the matrix it has read. *)
Definition detect_candidates (cols : list str) : list str :=
  let cols := map (replace_str sufijo_votos [])
                  (filter (fun c => endswith c sufijo_votos) cols) in
  filter (fun c => negb (set_in c ignored)) cols.

(** Characters of a slug: small ASCII letters, digits and the underscore. *)
Definition es_de_slug (c : N) : bool :=
  entre 97 122 c || entre 48 57 c || (c =? 95).

(** Letters whose upper-case form does not lower back to them. *)
Definition caja_reversible (c : N) : bool :=
  negb ((c =? 223) || (c =? 255) || (c =? 181)).

(** The attempts that an uncapped walk makes for one region. *)
Definition intentos_de_region (web : sitio) (region : str) : list evento :=
  match opciones_comuna web region with
  | Some l =>
    map (fun c => Procesando (normalizar_nombre_comuna c)
                             (normalizar_nombre_region region))
        (opciones_validas l)
  | None => []
  end.

(** Blanks of a canonical name: single spaces, none at either end.
    [previo] tells whether the position before [s] is the start of the
    text or a blank. *)
Fixpoint espaciado (previo : bool) (s : str) : bool :=
  match s with
  | [] => negb previo
  | c :: s' =>
    if isspace c then (c =? 32) && negb previo && espaciado true s'
    else espaciado false s'
  end.

Definition bien_espaciado (s : str) : bool :=
  match s with
  | [] => true
  | _ :: _ => espaciado true s
  end.

(** Records as the extractor keeps them. *)
Definition registros_sanos (dc dt : registro) : Prop :=
  dict_ok dc /\ dict_ok dt
  /\ (forall k, In k (dict_keys dt) -> In k nombres_de_totales)
  /\ (forall k m, In (k, m) (dc ++ dt) -> (0 <= votos m)%Z).

(** [s] continues [s0]: counters have not gone down, no key has left the
    store, and the log and the snapshots of [s0] are the beginning of
    those of [s]. *)
Definition continua (s0 s : scraper) : Prop :=
  (comunas_procesadas s0 <= comunas_procesadas s)%Z
  /\ (comunas_con_error s0 <= comunas_con_error s)%Z
  /\ incl (dict_keys (datos_completos s0)) (dict_keys (datos_completos s))
  /\ (exists l, bitacora s = bitacora s0 ++ l)
  /\ (exists l, progreso_parcial s = progreso_parcial s0 ++ l).

(** Counters and log agree, and the store is no larger than the number of
    extracted leaves. *)
Definition cuentas_al_dia (s : scraper) : Prop :=
  Z.of_nat (exitos (bitacora s)) = comunas_procesadas s
  /\ Z.of_nat (fallos (bitacora s)) = comunas_con_error s
  /\ intentos (bitacora s) = (exitos (bitacora s) + fallos (bitacora s))%nat
  /\ (Z.of_nat (List.length (datos_completos s)) <= comunas_procesadas s)%Z.

(** The counts 10, 20, ..., 10 m. *)
Definition decenas (m : nat) : list Z :=
  map (fun i => (10 * Z.of_nat i)%Z) (seq 1 m).

(** The snapshots kept are those of the tens reached so far whose file
    could be written. *)
Definition progreso_al_dia (web : sitio) (s : scraper) : Prop :=
  (0 <= comunas_procesadas s)%Z
  /\ map fst (progreso_parcial s)
     = filter (progreso_escribible web)
              (decenas (Z.to_nat (comunas_procesadas s / 10))).

(** One region of twenty-five leaves, each showing the scenario table. *)
Definition sitio_veinticinco (disco : Z -> bool) : sitio :=
  {| navegador_disponible := true;
     pagina_carga := true;
     filtro_activable := true;
     opciones_region := Some [txt "DEL MAULE"];
     opciones_comuna :=
       fun _ => Some (map (fun i => txt "COMUNA " ++ [65 + N.of_nat i]) (seq 0 25));
     pagina_comuna := fun _ _ => Tablas [tabla_escenario];
     progreso_escribible := disco |}.

(** ** Readers of the matrix *)

(** The cells of a row, each with the name of the column it stands under,
    as a reader of the matrix meets them after the two identity columns. *)
Definition rotuladas (df : dataframe) (f : fila) : list (str * celda) :=
  combine (skipn 2 (columnas df)) (f_valores f).

(** The two kinds of entity and the record of each in a stored leaf. *)
Inductive clase := Candidato | Agregado.

Definition campo_de (c : clase) : hoja -> registro :=
  match c with Candidato => candidatos | Agregado => totales end.

Definition otra (c : clase) : clase :=
  match c with Candidato => Agregado | Agregado => Candidato end.

(** Labels within Latin-1, the range on which the case mappings of this
    file are those of Python. *)
Definition latin1 (c : N) : bool := c <=? 255.

Definition es_latin1 (s : str) : bool := forallb latin1 s.

(** A word: non-empty and without blanks. *)
Definition es_una_palabra (w : str) : bool :=
  negb (str_eqb w []) && forallb no_blanco w.

Definition par_de_palabras (ic : str * str) : bool :=
  es_una_palabra (fst ic) && es_una_palabra (snd ic).

(* ================================================================= *)
(** * Properties *)

(** ** Strings *)

Lemma str_eqb_eq (a b : str) : str_eqb a b = true <-> a = b.
Proof.
  revert b; induction a as [|x a IH]; intros [|y b]; simpl; split;
    try congruence; try reflexivity.
  - intros H. apply andb_true_iff in H as [H1 H2].
    apply N.eqb_eq in H1. apply IH in H2. congruence.
  - intros H. inversion H; subst. rewrite N.eqb_refl. simpl. now apply IH.
Qed.

Lemma str_eqb_refl (a : str) : str_eqb a a = true.
Proof. now apply str_eqb_eq. Qed.

Lemma str_eqb_neq (a b : str) : str_eqb a b = false <-> a <> b.
Proof.
  split; intros H.
  - intros E. apply str_eqb_eq in E. congruence.
  - destruct (str_eqb a b) eqn:E; [|reflexivity].
    apply str_eqb_eq in E. contradiction.
Qed.

#[export] Instance clave_str_ok : ClaveOk str := str_eqb_eq.

#[export] Instance clave_par_ok : ClaveOk (str * str).
Proof.
  intros [a1 a2] [b1 b2]. unfold clave_eqb, clave_par. simpl.
  rewrite andb_true_iff, !str_eqb_eq. split.
  - intros [-> ->]. reflexivity.
  - intros E. inversion E. auto.
Qed.

Lemma str_ltb_irrefl (a : str) : str_ltb a a = false.
Proof.
  induction a as [|x a IH]; simpl; [reflexivity|].
  rewrite N.ltb_irrefl, N.eqb_refl, IH. reflexivity.
Qed.

Lemma str_ltb_trans (a b c : str) :
  str_ltb a b = true -> str_ltb b c = true -> str_ltb a c = true.
Proof.
  revert b c; induction a as [|x a IH]; intros [|y b] [|z c]; simpl;
    try congruence.
  intros H1 H2.
  apply orb_true_iff in H1. apply orb_true_iff in H2. apply orb_true_iff.
  destruct H1 as [H1|H1], H2 as [H2|H2].
  - left. apply N.ltb_lt in H1, H2. apply N.ltb_lt. lia.
  - apply andb_true_iff in H2 as [H2 _]. apply N.eqb_eq in H2. subst. now left.
  - apply andb_true_iff in H1 as [H1 _]. apply N.eqb_eq in H1. subst. now left.
  - apply andb_true_iff in H1 as [E1 H1]. apply andb_true_iff in H2 as [E2 H2].
    apply N.eqb_eq in E1, E2. subst. right. rewrite N.eqb_refl. simpl.
    eapply IH; eassumption.
Qed.

Lemma str_ltb_total (a b : str) :
  str_ltb a b = true \/ a = b \/ str_ltb b a = true.
Proof.
  revert b; induction a as [|x a IH]; intros [|y b]; simpl; auto.
  destruct (N.lt_trichotomy x y) as [L|[E|G]].
  - left. apply N.ltb_lt in L. rewrite L. reflexivity.
  - subst. rewrite N.ltb_irrefl, N.eqb_refl. simpl.
    destruct (IH b) as [L|[E|G]]; auto. subst. auto.
  - right. right. apply N.ltb_lt in G. rewrite G. reflexivity.
Qed.

Lemma str_ltb_asym (a b : str) : str_ltb a b = true -> str_ltb b a = false.
Proof.
  intros H. destruct (str_ltb b a) eqn:E; [|reflexivity].
  pose proof (str_ltb_trans _ _ _ H E) as C. rewrite str_ltb_irrefl in C.
  discriminate.
Qed.

Lemma str_leb_total (a b : str) : str_leb a b = true \/ str_leb b a = true.
Proof.
  unfold str_leb. destruct (str_ltb b a) eqn:E; [right|left; reflexivity].
  now rewrite (str_ltb_asym _ _ E).
Qed.

(** ** Scenarios of the name normaliser *)

Example region_valparaiso :
  normalizar_nombre_region (txt "DE VALPARAISO") = txt "Valparaíso".
Proof. reflexivity. Qed.

Example region_sin_tabla :
  normalizar_nombre_region (txt "del  norte Y DEL sur") = txt "Norte y del Sur".
Proof. reflexivity. Qed.

Example comuna_vina_del_mar :
  normalizar_nombre_comuna (txt "VIÑA DEL MAR") = txt "Viña del Mar".
Proof. reflexivity. Qed.

Example comuna_con_numeral :
  normalizar_nombre_comuna (txt " san  pedro DE LA paz xiv ")
  = txt "San Pedro de la Paz XIV".
Proof. reflexivity. Qed.

Example candidato_por_alias :
  simplificar_nombre_candidato
    [(txt "JEANNETTE JARA", txt "jara"); (txt "KAST", txt "kast")]
    (txt "José Antonio Kast Rist") = txt "kast".
Proof. reflexivity. Qed.

Example candidato_por_apellido :
  simplificar_nombre_candidato [] (txt "María O'Brien-Díaz") = txt "o_brien_d_az".
Proof. reflexivity. Qed.

(** ** Dictionaries *)

Section DictFacts.
Context {K V : Type} `{ClaveOk K}.

Lemma clave_eqb_refl (k : K) : clave_eqb k k = true.
Proof. now apply clave_eqb_eq. Qed.

Lemma clave_eqb_neq (a b : K) : clave_eqb a b = false <-> a <> b.
Proof.
  split; intros E.
  - intros F. apply clave_eqb_eq in F. congruence.
  - destruct (clave_eqb a b) eqn:G; [|reflexivity].
    apply clave_eqb_eq in G. contradiction.
Qed.

Lemma dict_get_set_same (k : K) (v : V) (d : dict K V) :
  dict_get k (dict_set k v d) = Some v.
Proof.
  induction d as [|[k' v'] d IH]; simpl.
  - now rewrite clave_eqb_refl.
  - destruct (clave_eqb k k') eqn:E; simpl; rewrite E; auto.
Qed.

Lemma dict_get_set_other (k k' : K) (v : V) (d : dict K V) :
  k <> k' -> dict_get k' (dict_set k v d) = dict_get k' d.
Proof.
  intros N. induction d as [|[k0 v0] d IH]; simpl.
  - assert (clave_eqb k' k = false) as -> by (apply clave_eqb_neq; congruence).
    reflexivity.
  - destruct (clave_eqb k k0) eqn:E; simpl.
    + apply clave_eqb_eq in E. subst k0.
      assert (clave_eqb k' k = false) as -> by (apply clave_eqb_neq; congruence).
      reflexivity.
    + now rewrite IH.
Qed.

Lemma dict_get_None (k : K) (d : dict K V) :
  dict_get k d = None <-> ~ In k (dict_keys d).
Proof.
  induction d as [|[k' v'] d IH]; simpl.
  - tauto.
  - destruct (clave_eqb k k') eqn:E.
    + apply clave_eqb_eq in E. subst. split; [discriminate|tauto].
    + apply clave_eqb_neq in E. rewrite IH. intuition congruence.
Qed.

Lemma dict_get_In (k : K) (v : V) (d : dict K V) :
  dict_get k d = Some v -> In (k, v) d.
Proof.
  induction d as [|[k' v'] d IH]; simpl; [discriminate|].
  destruct (clave_eqb k k') eqn:E.
  - apply clave_eqb_eq in E. intros [= ->]. subst. now left.
  - auto.
Qed.

Lemma dict_In_get (k : K) (v : V) (d : dict K V) :
  dict_ok d -> In (k, v) d -> dict_get k d = Some v.
Proof.
  unfold dict_ok. induction d as [|[k' v'] d IH]; simpl; [tauto|].
  intros ND [E|I].
  - inversion E; subst. now rewrite clave_eqb_refl.
  - inversion ND as [|? ? NI ND']; subst.
    destruct (clave_eqb k k') eqn:E; [|auto].
    apply clave_eqb_eq in E. subst. exfalso. apply NI.
    change (In (fst (k', v)) (map fst d)). now apply in_map.
Qed.

Lemma dict_set_presente (k : K) (v : V) (d : dict K V) :
  dict_get k d <> None -> dict_keys (dict_set k v d) = dict_keys d.
Proof.
  induction d as [|[k' v'] d IH]; simpl; [congruence|].
  destruct (clave_eqb k k') eqn:E; simpl; [reflexivity|].
  intros N. now rewrite IH.
Qed.

Lemma dict_set_nuevo (k : K) (v : V) (d : dict K V) :
  dict_get k d = None -> dict_set k v d = d ++ [(k, v)].
Proof.
  induction d as [|[k' v'] d IH]; simpl; [reflexivity|].
  destruct (clave_eqb k k') eqn:E; [discriminate|].
  intros N. now rewrite IH.
Qed.

Lemma dict_ok_set (k : K) (v : V) (d : dict K V) :
  dict_ok d -> dict_ok (dict_set k v d).
Proof.
  unfold dict_ok. intros ND.
  destruct (dict_get k d) eqn:G.
  - rewrite dict_set_presente; [assumption|congruence].
  - rewrite dict_set_nuevo by assumption.
    unfold dict_keys. rewrite map_app. simpl.
    apply dict_get_None in G.
    apply (Permutation_NoDup (Permutation_cons_append (map fst d) k)).
    now constructor.
Qed.

(** Items after an assignment: the new one, and the old ones of other keys. *)
Lemma dict_set_In (k k' : K) (v v' : V) (d : dict K V) :
  dict_ok d ->
  (In (k', v') (dict_set k v d) <-> (k' = k /\ v' = v) \/ (k' <> k /\ In (k', v') d)).
Proof.
  intros OK. pose proof (dict_ok_set k v d OK) as OK'.
  split.
  - intros I. apply (dict_In_get _ _ _ OK') in I.
    destruct (clave_eqb k k') eqn:E.
    + apply clave_eqb_eq in E. subst. rewrite dict_get_set_same in I.
      left. split; congruence.
    + apply clave_eqb_neq in E. rewrite dict_get_set_other in I by assumption.
      right. split; [congruence|]. now apply dict_get_In.
  - intros [[-> ->]|[N I]].
    + apply dict_get_In. apply dict_get_set_same.
    + apply dict_get_In. rewrite dict_get_set_other by congruence.
      now apply dict_In_get.
Qed.
End DictFacts.

Lemma fold_left_filter {A B : Type} (p : B -> bool) (f : A -> B -> A)
    (l : list B) (a : A) :
  fold_left (fun acc x => if p x then f acc x else acc) l a
  = fold_left f (filter p l) a.
Proof.
  revert a; induction l as [|x l IH]; intros a; simpl; [reflexivity|].
  destruct (p x); simpl; apply IH.
Qed.

(** ** Leaf extraction *)

(** C4: a results table whose rows of three or more cells are
    ("JUAN PEREZ", "1.234", "45,6"), ("BLANCO", "10", "0,4") and
    ("TOTAL EMITIDOS", "1.244", "100,0") is extracted, with an empty alias
    table, to the candidate record {perez: 1234 votes, share 45.6 = 228/5}
    and the aggregate record {blanco: 10, 0.4 = 2/5; emitidos: 1244,
    100.0}: the dots are stripped from the counts, the decimal comma is
    read as a dot, and the labels with BLANCO and TOTAL go to the
    aggregates. *)
Theorem C4_extraccion_escenario (r : respuesta) (t : tabla)
    (filas : list (list str)) :
  _encontrar_tabla_resultados r = Some t ->
  filas_td t = Some filas ->
  filter tres_celdas filas
  = [[txt "JUAN PEREZ"; txt "1.234"; txt "45,6"];
     [txt "BLANCO"; txt "10"; txt "0,4"];
     [txt "TOTAL EMITIDOS"; txt "1.244"; txt "100,0"]] ->
  _extraer_datos_comuna [] r
  = Some ([(txt "perez", {| votos := 1234; porcentaje := FFin (228 # 5) |})],
          [(txt "blanco", {| votos := 10; porcentaje := FFin (2 # 5) |});
           (txt "emitidos", {| votos := 1244; porcentaje := FFin (100 # 1) |})]).
Proof.
  intros Ht Hl Hf.
  assert (_extraer_datos_comuna [] r
          = Some (fold_left
                    (fun acc celdas =>
                       if (3 <=? List.length celdas)%nat
                       then _procesar_fila [] celdas (fst acc) (snd acc)
                       else acc) filas ([], []))) as ->.
  { destruct r; simpl in Ht; try discriminate.
    simpl. unfold _procesar_tabla_resultados. simpl. now rewrite Ht, Hl. }
  rewrite (fold_left_filter tres_celdas
             (fun acc celdas => _procesar_fila [] celdas (fst acc) (snd acc))).
  rewrite Hf. vm_compute. reflexivity.
Qed.

Lemma C4_extraccion_escenario_witness :
  let t := {| is_displayed := true; text := txt "Candidato Votos";
              filas_td := Some ([txt "Candidato"; txt "Votos"] :: filas_escenario) |} in
  _extraer_datos_comuna [] (Tablas [t])
  = Some ([(txt "perez", {| votos := 1234; porcentaje := FFin (228 # 5) |})],
          [(txt "blanco", {| votos := 10; porcentaje := FFin (2 # 5) |});
           (txt "emitidos", {| votos := 1244; porcentaje := FFin (100 # 1) |})]).
Proof.
  intros t.
  apply (C4_extraccion_escenario (Tablas [t]) t
           ([txt "Candidato"; txt "Votos"] :: filas_escenario)); reflexivity.
Defined.

(** ** Character classes *)

Lemma entre_spec (lo hi c : N) : entre lo hi c = true <-> lo <= c <= hi.
Proof. unfold entre. rewrite andb_true_iff, !N.leb_le. tauto. Qed.

Lemma isspace_spec (c : N) :
  isspace c = true <->
  9 <= c <= 13 \/ 28 <= c <= 32 \/ c = 133 \/ c = 160 \/ c = 5760
  \/ 8192 <= c <= 8202 \/ c = 8232 \/ c = 8233 \/ c = 8239 \/ c = 8287
  \/ c = 12288.
Proof.
  unfold isspace. rewrite !orb_true_iff, !entre_spec, !N.eqb_eq. tauto.
Qed.

Lemma es_minuscula_par_spec (c : N) :
  es_minuscula_par c = true <->
  97 <= c <= 122 \/ 224 <= c <= 246 \/ 248 <= c <= 254.
Proof.
  unfold es_minuscula_par. rewrite !orb_true_iff, !entre_spec. tauto.
Qed.

Lemma es_mayuscula_spec (c : N) :
  es_mayuscula c = true <->
  65 <= c <= 90 \/ 192 <= c <= 214 \/ 216 <= c <= 222.
Proof.
  unfold es_mayuscula. rewrite !orb_true_iff, !entre_spec. tauto.
Qed.

Lemma upper_cp_blanco (c : N) : isspace c = true -> upper_cp c = [c].
Proof.
  intros Hs. apply isspace_spec in Hs. unfold upper_cp.
  destruct (es_minuscula_par c) eqn:E.
  - apply es_minuscula_par_spec in E. lia.
  - destruct (N.eqb_spec c 223); [lia|].
    destruct (N.eqb_spec c 255); [lia|].
    destruct (N.eqb_spec c 181); [lia|]. reflexivity.
Qed.

(** ** Splitting and stripping *)

Lemma split_no_vacias (s : str) : Forall (fun w => w <> []) (split s).
Proof.
  induction s as [|c s IH]; simpl; [constructor|].
  destruct (isspace c); [assumption|].
  destruct (empieza_palabra s).
  - destruct (split s) as [|w ws]; constructor;
      try discriminate; try constructor.
    now inversion IH.
  - constructor; [discriminate|assumption].
Qed.

Lemma split_nil (s : str) : split s = [] -> forallb isspace s = true.
Proof.
  induction s as [|c s IH]; simpl; [reflexivity|].
  destruct (isspace c); simpl; [assumption|].
  destruct (empieza_palabra s); [destruct (split s)|]; discriminate.
Qed.

Lemma lstrip_blancos (s : str) : forallb isspace s = true -> lstrip s = [].
Proof.
  induction s as [|c s IH]; simpl; [reflexivity|].
  intros H. apply andb_true_iff in H as [Hc Hs]. rewrite Hc. auto.
Qed.

Lemma upper_blancos (s : str) : forallb isspace s = true -> upper s = s.
Proof.
  induction s as [|c s IH]; simpl; [reflexivity|].
  intros H. apply andb_true_iff in H as [Hc Hs].
  unfold upper in *. simpl. rewrite (upper_cp_blanco c Hc), IH by assumption.
  reflexivity.
Qed.

Lemma strip_upper_sin_palabras (s : str) :
  split s = [] -> strip (upper s) = [].
Proof.
  intros H. apply split_nil in H. rewrite (upper_blancos s H).
  unfold strip, rstrip. rewrite (lstrip_blancos s H). reflexivity.
Qed.

Lemma startswith_refl (s : str) : startswith s s = true.
Proof. induction s as [|c s IH]; simpl; [reflexivity|]. now rewrite N.eqb_refl. Qed.

Lemma contiene_refl (s : str) : contiene s s = true.
Proof. destruct s; simpl; [reflexivity|]. now rewrite N.eqb_refl, startswith_refl. Qed.

Lemma contiene_en_vacio (k : str) : k <> [] -> contiene [] k = false.
Proof. destruct k; simpl; [congruence|reflexivity]. Qed.

(** ** Entity normalisation *)

Lemma buscar_exacta_None (nu : str) (tabla : dict str str) :
  buscar_exacta nu tabla = None <-> Forall (fun e => fst e <> nu) tabla.
Proof.
  induction tabla as [|[k v] t IH]; simpl.
  - split; [constructor|reflexivity].
  - destruct (str_eqb nu k) eqn:E.
    + apply str_eqb_eq in E. subst. split; [discriminate|].
      intros F. inversion F; subst. simpl in *. congruence.
    + apply str_eqb_neq in E. rewrite IH. split.
      * intros F. constructor; [simpl; congruence|assumption].
      * intros F. now inversion F.
Qed.

Lemma buscar_parcial_None (nu : str) (tabla : dict str str) :
  buscar_parcial nu tabla = None
  <-> Forall (fun e => contiene nu (fst e) = false) tabla.
Proof.
  induction tabla as [|[k v] t IH]; simpl.
  - split; [constructor|reflexivity].
  - destruct (contiene nu k) eqn:E.
    + split; [discriminate|]. intros F. inversion F; subst. simpl in *. congruence.
    + rewrite IH. split.
      * intros F. now constructor.
      * intros F. now inversion F.
Qed.

Lemma buscar_exacta_primera (nu : str) (antes despues : dict str str)
    (corto : str) :
  Forall (fun e => fst e <> nu) antes ->
  buscar_exacta nu (antes ++ (nu, corto) :: despues) = Some corto.
Proof.
  induction antes as [|[k v] a IH]; simpl; intros F.
  - now rewrite str_eqb_refl.
  - inversion F as [|? ? Hk Ha]; subst. simpl in Hk.
    assert (str_eqb nu k = false) as -> by (apply str_eqb_neq; congruence).
    auto.
Qed.

Lemma buscar_parcial_primera (nu : str) (antes despues : dict str str)
    (largo corto : str) :
  Forall (fun e => contiene nu (fst e) = false) antes ->
  contiene nu largo = true ->
  buscar_parcial nu (antes ++ (largo, corto) :: despues) = Some corto.
Proof.
  induction antes as [|[k v] a IH]; simpl; intros F C.
  - now rewrite C.
  - inversion F as [|? ? Hk Ha]; subst. simpl in Hk. rewrite Hk. auto.
Qed.

Lemma buscar_exacta_In (nu : str) (tabla : dict str str) (corto : str) :
  buscar_exacta nu tabla = Some corto -> In (nu, corto) tabla.
Proof.
  induction tabla as [|[k v] t IH]; simpl; [discriminate|].
  destruct (str_eqb nu k) eqn:E.
  - apply str_eqb_eq in E. intros [= ->]. subst. now left.
  - auto.
Qed.

Lemma buscar_parcial_In (nu : str) (tabla : dict str str) (corto : str) :
  buscar_parcial nu tabla = Some corto ->
  exists largo, In (largo, corto) tabla /\ contiene nu largo = true.
Proof.
  induction tabla as [|[k v] t IH]; simpl; [discriminate|].
  destruct (contiene nu k) eqn:E.
  - intros [= ->]. exists k. auto.
  - intros H. destruct (IH H) as [l [I C]]. exists l. auto.
Qed.

(** C5 (amended): the label is upper-cased and stripped, and the keys of
    the alias table are compared as they are written.  The short form of
    the first key equal to that text is returned; when there is none, the
    short form of the first key, in table order, contained in it; when
    there is none either, the slug of the last token of the label, or the
    sentinel when the label has no token. *)
Theorem C5_orden_de_busqueda (tabla : dict str str) (etiqueta : str) :
  let nombre_upper := strip (upper etiqueta) in
  (forall antes corto despues,
      tabla = antes ++ (nombre_upper, corto) :: despues ->
      Forall (fun e => fst e <> nombre_upper) antes ->
      simplificar_nombre_candidato tabla etiqueta = corto)
  /\ (forall antes largo corto despues,
      tabla = antes ++ (largo, corto) :: despues ->
      Forall (fun e => fst e <> nombre_upper) tabla ->
      Forall (fun e => contiene nombre_upper (fst e) = false) antes ->
      contiene nombre_upper largo = true ->
      simplificar_nombre_candidato tabla etiqueta = corto)
  /\ (Forall (fun e => contiene nombre_upper (fst e) = false) tabla ->
      simplificar_nombre_candidato tabla etiqueta
      = match rev (split etiqueta) with
        | ultima :: _ => sub_no_slug (lower ultima)
        | [] => candidato_desconocido
        end).
Proof.
  intros nu. unfold simplificar_nombre_candidato. fold nu. repeat split.
  - intros antes corto despues -> F.
    now rewrite buscar_exacta_primera.
  - intros antes largo corto despues E Fe Fp C.
    apply buscar_exacta_None in Fe. rewrite Fe. subst tabla.
    now rewrite (buscar_parcial_primera nu antes despues largo corto).
  - intros Fp.
    assert (buscar_exacta nu tabla = None) as ->.
    { apply buscar_exacta_None. eapply Forall_impl; [|exact Fp].
      intros [k v] Hk Heq. simpl in *. subst k.
      rewrite contiene_refl in Hk. discriminate. }
    apply buscar_parcial_None in Fp. now rewrite Fp.
Qed.

Lemma C5_orden_de_busqueda_witness :
  simplificar_nombre_candidato
    [(txt "KAST", txt "kast"); (txt "JOSE ANTONIO KAST", txt "jak")]
    (txt " Jose Antonio Kast ") = txt "jak"
  /\ simplificar_nombre_candidato
    [(txt "ANTONIO", txt "a"); (txt "KAST", txt "kast"); (txt "JOSE", txt "j")]
    (txt "Jose Kast Rist") = txt "kast"
  /\ simplificar_nombre_candidato
    [(txt "KAST", txt "kast")] (txt "Juan Perez") = txt "perez".
Proof.
  pose proof (C5_orden_de_busqueda
                [(txt "KAST", txt "kast"); (txt "JOSE ANTONIO KAST", txt "jak")]
                (txt " Jose Antonio Kast ")) as [H1 _].
  pose proof (C5_orden_de_busqueda
                [(txt "ANTONIO", txt "a"); (txt "KAST", txt "kast"); (txt "JOSE", txt "j")]
                (txt "Jose Kast Rist")) as [_ [H2 _]].
  pose proof (C5_orden_de_busqueda
                [(txt "KAST", txt "kast")] (txt "Juan Perez")) as [_ [_ H3]].
  split; [|split].
  - apply (H1 [(txt "KAST", txt "kast")] (txt "jak") []).
    + reflexivity.
    + repeat constructor. vm_compute. discriminate.
  - apply (H2 [(txt "ANTONIO", txt "a")] (txt "KAST") (txt "kast")
              [(txt "JOSE", txt "j")]).
    + reflexivity.
    + repeat constructor; vm_compute; discriminate.
    + repeat constructor.
    + reflexivity.
  - rewrite H3; [reflexivity|]. repeat constructor.
Defined.

(** C5, as worded, fails: a key written in mixed case is never matched,
    although it equals the label up to case. *)
Lemma C5_counterexample :
  simplificar_nombre_candidato [(txt "Juan Perez", txt "jp")] (txt "Juan Perez")
  <> normalize_entity_spec [(txt "Juan Perez", txt "jp")] (txt "Juan Perez").
Proof. vm_compute. discriminate. Qed.

(** C9 (amended): the result is non-empty whenever no short form of the
    alias table is empty; a label without any token, looked up in a table
    that has no empty key, yields the sentinel; so does the empty label
    with the empty table. *)
Theorem C9_nunca_vacio (tabla : dict str str) (etiqueta : str) :
  (Forall (fun e => snd e <> []) tabla ->
   simplificar_nombre_candidato tabla etiqueta <> [])
  /\ (split etiqueta = [] -> Forall (fun e => fst e <> []) tabla ->
      simplificar_nombre_candidato tabla etiqueta = candidato_desconocido)
  /\ simplificar_nombre_candidato [] [] = candidato_desconocido.
Proof.
  repeat split.
  - intros F. unfold simplificar_nombre_candidato.
    rewrite Forall_forall in F.
    destruct (buscar_exacta _ tabla) as [c|] eqn:E1.
    { apply buscar_exacta_In in E1. exact (F _ E1). }
    destruct (buscar_parcial _ tabla) as [c|] eqn:E2.
    { apply buscar_parcial_In in E2 as [l [I _]]. exact (F _ I). }
    destruct (rev (split etiqueta)) as [|u r] eqn:E3; [discriminate|].
    assert (In u (split etiqueta)) as I.
    { apply in_rev. rewrite E3. now left. }
    pose proof (split_no_vacias etiqueta) as NV.
    rewrite Forall_forall in NV. specialize (NV u I).
    destruct u; [congruence|discriminate].
  - intros Hs F. unfold simplificar_nombre_candidato.
    rewrite strip_upper_sin_palabras by assumption.
    assert (buscar_exacta [] tabla = None) as ->.
    { apply buscar_exacta_None. exact F. }
    assert (buscar_parcial [] tabla = None) as ->.
    { apply buscar_parcial_None. eapply Forall_impl; [|exact F].
      intros [k v] Hk. simpl in *. now apply contiene_en_vacio. }
    now rewrite Hs.
Qed.

Lemma C9_nunca_vacio_witness :
  simplificar_nombre_candidato [(txt "KAST", txt "kast")] (txt "  ") <> []
  /\ simplificar_nombre_candidato [(txt "KAST", txt "kast")] (txt "  ")
     = candidato_desconocido.
Proof.
  pose proof (C9_nunca_vacio [(txt "KAST", txt "kast")] (txt "  ")) as [H1 [H2 _]].
  split.
  - apply H1. repeat constructor. vm_compute. discriminate.
  - apply H2; [reflexivity|]. repeat constructor. vm_compute. discriminate.
Defined.

(** C9, as worded, fails: an alias whose short form is empty is returned
    as it is. *)
Lemma C9_counterexample :
  simplificar_nombre_candidato [(txt "PEREZ", [])] (txt "JUAN PEREZ") = [].
Proof. reflexivity. Qed.

(** ** Leaf names *)


Lemma sub_palabra_go_cons (w por : str) (prev : option N) (c : N) (s : str) :
  sub_palabra_go w por prev 0 (c :: s)
  = if frontera prev (c :: s) && startswith (c :: s) w
       && frontera (ultimo prev w) (skipn (List.length w) (c :: s))
    then por ++ sub_palabra_go w por (Some c) (List.length w - 1) s
    else c :: sub_palabra_go w por (Some c) 0 s.
Proof. reflexivity. Qed.









(** ** Names of one token that begin with the letter enie *)

Lemma lower_cp_blanco (c : N) : isspace (lower_cp c) = isspace c.
Proof.
  unfold lower_cp. destruct (es_mayuscula c) eqn:E; [|reflexivity].
  apply es_mayuscula_spec in E.
  destruct (isspace (c + 32)) eqn:A; destruct (isspace c) eqn:B; try reflexivity;
    try (apply isspace_spec in A); try (apply isspace_spec in B); lia.
Qed.

Lemma lower_cp_idem (c : N) : lower_cp (lower_cp c) = lower_cp c.
Proof.
  unfold lower_cp. destruct (es_mayuscula c) eqn:E; [|now rewrite E].
  apply es_mayuscula_spec in E.
  destruct (es_mayuscula (c + 32)) eqn:F; [|reflexivity].
  apply es_mayuscula_spec in F. lia.
Qed.

Lemma lower_idem (s : str) : lower (lower s) = lower s.
Proof.
  unfold lower. rewrite map_map. apply map_ext. apply lower_cp_idem.
Qed.










Lemma dict_get_identidad (d : dict str str) (n v : str) :
  forallb (fun e => str_eqb (fst e) (snd e)) d = true ->
  dict_get n d = Some v -> v = n.
Proof.
  intros F G. apply dict_get_In in G.
  rewrite forallb_forall in F. specialize (F _ G). simpl in F.
  apply str_eqb_eq in F. congruence.
Qed.



(** ** Sorting *)

Section OrdenarFacts.
Context {A : Type} (leb : A -> A -> bool).
Hypothesis leb_total : forall a b, leb a b = true \/ leb b a = true.
Hypothesis leb_trans : forall a b c, leb a b = true -> leb b c = true -> leb a c = true.

Let le (a b : A) : Prop := leb a b = true.

Lemma insertar_perm (x : A) (l : list A) : Permutation (insertar leb x l) (x :: l).
Proof.
  induction l as [|y l IH]; simpl; [reflexivity|].
  destruct (leb x y); [reflexivity|].
  rewrite IH. apply perm_swap.
Qed.

Lemma ordenar_perm (l : list A) : Permutation (ordenar leb l) l.
Proof.
  induction l as [|x l IH]; simpl; [reflexivity|].
  rewrite insertar_perm. now constructor.
Qed.

Lemma insertar_ordenada (x : A) (l : list A) :
  StronglySorted le l -> StronglySorted le (insertar leb x l).
Proof.
  induction l as [|y l IH]; simpl; intros S.
  - repeat constructor.
  - inversion S as [|? ? Sl Fy]; subst.
    destruct (leb x y) eqn:E.
    + constructor; [assumption|]. constructor; [exact E|].
      eapply Forall_impl; [|exact Fy]. intros b Hb. exact (leb_trans _ _ _ E Hb).
    + constructor; [auto|].
      assert (le y x) as Hyx by (destruct (leb_total x y); [congruence|assumption]).
      apply (Permutation_Forall (Permutation_sym (insertar_perm x l))).
      now constructor.
Qed.

Lemma ordenar_ordenada (l : list A) : StronglySorted le (ordenar leb l).
Proof.
  induction l as [|x l IH]; simpl; [constructor|].
  now apply insertar_ordenada.
Qed.
End OrdenarFacts.

(** With distinct keys, a sorted list is strictly sorted. *)
Lemma ordenada_estricta {A B : Type} (le lt : A -> A -> Prop) (clave : A -> B)
    (l : list A) :
  (forall a b, le a b -> clave a <> clave b -> lt a b) ->
  StronglySorted le l -> NoDup (map clave l) -> StronglySorted lt l.
Proof.
  intros Hlt. induction l as [|a l IH]; simpl; intros S ND; [constructor|].
  inversion S as [|? ? Sl Fa]; subst. inversion ND as [|? ? Ni NDl]; subst.
  constructor; [auto|].
  rewrite Forall_forall in *. intros b Ib. apply Hlt; [auto|].
  intros E. apply Ni. rewrite E. now apply in_map.
Qed.

(** Two strictly sorted lists with the same elements are equal. *)
Lemma ordenada_unica {A : Type} (lt : A -> A -> Prop) (l1 l2 : list A) :
  (forall a, ~ lt a a) -> (forall a b c, lt a b -> lt b c -> lt a c) ->
  StronglySorted lt l1 -> StronglySorted lt l2 ->
  (forall x, In x l1 <-> In x l2) -> l1 = l2.
Proof.
  intros Irr Tr. revert l2.
  induction l1 as [|a l1 IH]; intros [|b l2] S1 S2 Hin.
  - reflexivity.
  - exfalso. apply (proj2 (Hin b)). now left.
  - exfalso. apply (proj1 (Hin a)). now left.
  - inversion S1 as [|? ? S1' F1]; subst. inversion S2 as [|? ? S2' F2]; subst.
    rewrite Forall_forall in F1, F2.
    assert (a = b) as ->.
    { destruct (proj1 (Hin a) (or_introl eq_refl)) as [E|Ia]; [congruence|].
      destruct (proj2 (Hin b) (or_introl eq_refl)) as [E|Ib]; [congruence|].
      exfalso. apply (Irr a). eapply Tr; [apply F1; exact Ib|apply F2; exact Ia]. }
    f_equal. apply IH; try assumption.
    intros x. split; intros I.
    + destruct (proj1 (Hin x) (or_intror I)) as [E|I']; [|assumption].
      subst x. exfalso. apply (Irr b). now apply F1.
    + destruct (proj2 (Hin x) (or_intror I)) as [E|I']; [|assumption].
      subst x. exfalso. apply (Irr b). now apply F2.
Qed.

Lemma str_leb_spec (a b : str) : str_leb a b = true <-> str_lt a b \/ a = b.
Proof.
  unfold str_leb, str_lt. split.
  - intros H. apply negb_true_iff in H.
    destruct (str_ltb_total a b) as [L|[E|G]]; auto. congruence.
  - intros [L|E].
    + now rewrite (str_ltb_asym _ _ L).
    + subst. now rewrite str_ltb_irrefl.
Qed.

Lemma str_leb_trans (a b c : str) :
  str_leb a b = true -> str_leb b c = true -> str_leb a c = true.
Proof.
  rewrite !str_leb_spec. unfold str_lt.
  intros [L1|E1] [L2|E2]; subst; auto.
  left. eapply str_ltb_trans; eassumption.
Qed.

Lemma str_lt_irrefl (a : str) : ~ str_lt a a.
Proof. unfold str_lt. rewrite str_ltb_irrefl. discriminate. Qed.

Lemma fila_leb_spec (a b : fila) :
  fila_leb a b = true <-> fila_lt a b \/ identidad a = identidad b.
Proof.
  unfold fila_leb, fila_lt, identidad.
  rewrite orb_true_iff, andb_true_iff, str_eqb_eq, str_leb_spec.
  split.
  - intros [L|[E [L|E']]]; auto. right. congruence.
  - intros [[L|[E L]]|E]; auto. inversion E. auto.
Qed.

Lemma fila_lt_trans (a b c : fila) : fila_lt a b -> fila_lt b c -> fila_lt a c.
Proof.
  unfold fila_lt, str_lt.
  intros [L1|[E1 L1]] [L2|[E2 L2]].
  - left. eapply str_ltb_trans; eassumption.
  - left. now rewrite <- E2.
  - left. now rewrite E1.
  - right. split; [congruence|]. eapply str_ltb_trans; eassumption.
Qed.

Lemma fila_lt_identidad (a b : fila) : fila_lt a b -> identidad a <> identidad b.
Proof.
  unfold fila_lt, identidad. intros [L|[_ L]] E; injection E as E1 E2.
  - rewrite E2 in L. exact (str_lt_irrefl _ L).
  - rewrite E1 in L. exact (str_lt_irrefl _ L).
Qed.

Lemma fila_leb_total (a b : fila) : fila_leb a b = true \/ fila_leb b a = true.
Proof.
  rewrite !fila_leb_spec. unfold fila_lt, identidad, str_lt.
  destruct (str_ltb_total (f_region a) (f_region b)) as [L|[E|G]]; auto.
  destruct (str_ltb_total (f_comuna a) (f_comuna b)) as [L|[E'|G]]; auto.
  left. right. congruence.
Qed.

Lemma fila_leb_trans (a b c : fila) :
  fila_leb a b = true -> fila_leb b c = true -> fila_leb a c = true.
Proof.
  rewrite !fila_leb_spec.
  intros [L1|E1] [L2|E2].
  - left. eapply fila_lt_trans; eassumption.
  - left. unfold fila_lt, identidad in *. injection E2 as Ec Er.
    rewrite <- Ec, <- Er. assumption.
  - left. unfold fila_lt, identidad in *. injection E1 as Ec Er.
    rewrite Ec, Er. assumption.
  - right. congruence.
Qed.

Lemma insertar_In {A : Type} (leb : A -> A -> bool) (e x : A) (l : list A) :
  In x (insertar leb e l) <-> e = x \/ In x l.
Proof.
  split; intros I.
  - exact (Permutation_in _ (insertar_perm leb e l) I).
  - exact (Permutation_in _ (Permutation_sym (insertar_perm leb e l)) I).
Qed.

(** ** Schema discovery *)

Lemma set_in_In (k : str) (s : list str) : set_in k s = true <-> In k s.
Proof.
  unfold set_in. rewrite existsb_exists. split.
  - intros [x [I E]]. apply str_eqb_eq in E. now subst.
  - intros I. exists k. split; [assumption|apply str_eqb_refl].
Qed.

Lemma set_add_In (s : list str) (k x : str) :
  In x (set_add s k) <-> In x s \/ x = k.
Proof.
  unfold set_add. destruct (set_in k s) eqn:E.
  - apply set_in_In in E. split; [auto|]. intros [I| ->]; assumption.
  - rewrite in_app_iff. simpl. intuition congruence.
Qed.

Lemma set_add_NoDup (s : list str) (k : str) : NoDup s -> NoDup (set_add s k).
Proof.
  intros ND. unfold set_add. destruct (set_in k s) eqn:E; [assumption|].
  apply (Permutation_NoDup (Permutation_cons_append s k)). constructor; [|assumption].
  intros I. apply set_in_In in I. congruence.
Qed.

Lemma set_update_In (ks s : list str) (x : str) :
  In x (set_update s ks) <-> In x s \/ In x ks.
Proof.
  unfold set_update. revert s. induction ks as [|k ks IH]; intros s; simpl.
  - tauto.
  - rewrite IH, set_add_In. intuition congruence.
Qed.

Lemma set_update_NoDup (ks s : list str) : NoDup s -> NoDup (set_update s ks).
Proof.
  unfold set_update. revert s. induction ks as [|k ks IH]; intros s ND; simpl.
  - assumption.
  - apply IH. now apply set_add_NoDup.
Qed.

Section Esquema.
Variable campo : hoja -> registro.

Let paso (acc : list str) (kv : (str * str) * hoja) : list str :=
  set_update acc (dict_keys (campo (snd kv))).

Lemma vistos_In (d : almacen) (acc : list str) (x : str) :
  In x (fold_left paso d acc)
  <-> In x acc \/ exists kv, In kv d /\ In x (dict_keys (campo (snd kv))).
Proof.
  revert acc. induction d as [|kv d IH]; intros acc; simpl.
  - split; [auto|]. intros [I|[kv [[] _]]]. assumption.
  - rewrite IH. unfold paso. rewrite set_update_In. split.
    + intros [[I|I]|[kv' [I J]]]; eauto.
    + intros [I|[kv' [[->|I] J]]]; eauto.
Qed.

Lemma vistos_NoDup (d : almacen) (acc : list str) :
  NoDup acc -> NoDup (fold_left paso d acc).
Proof.
  revert acc. induction d as [|kv d IH]; intros acc ND; simpl; [assumption|].
  apply IH. now apply set_update_NoDup.
Qed.

(** The names of a kind are exactly those of some stored leaf. *)
Lemma todos_nombres_In (d : almacen) (x : str) :
  In x (todos_nombres campo d)
  <-> exists kv, In kv d /\ In x (dict_keys (campo (snd kv))).
Proof.
  unfold todos_nombres, sorted.
  split.
  - intros I. apply (Permutation_in _ (ordenar_perm str_leb _)) in I.
    apply vistos_In in I as [[]|I]. assumption.
  - intros I.
    apply (Permutation_in _ (Permutation_sym (ordenar_perm str_leb _))).
    apply vistos_In. now right.
Qed.

(** They come in strictly increasing order: sorted and without repetition. *)
Lemma todos_nombres_estricta (d : almacen) :
  StronglySorted str_lt (todos_nombres campo d).
Proof.
  unfold todos_nombres, sorted.
  apply (ordenada_estricta (fun a b => str_leb a b = true) str_lt (fun a => a)).
  - intros a b L N. apply str_leb_spec in L as [L|E]; [assumption|contradiction].
  - apply ordenar_ordenada; [apply str_leb_total|apply str_leb_trans].
  - rewrite map_id.
    apply (Permutation_NoDup (Permutation_sym (ordenar_perm str_leb _))).
    apply vistos_NoDup. constructor.
Qed.

Lemma insertar_estricta (e : str) (l : list str) :
  StronglySorted str_lt l -> ~ In e l ->
  StronglySorted str_lt (insertar str_leb e l).
Proof.
  intros S Ni.
  apply (ordenada_estricta (fun a b => str_leb a b = true) str_lt (fun a => a)).
  - intros a b L N. apply str_leb_spec in L as [L|E]; [assumption|contradiction].
  - apply insertar_ordenada; [apply str_leb_total|apply str_leb_trans|].
    eapply StronglySorted_ind with (P := StronglySorted (fun a b => str_leb a b = true));
      [constructor| |exact S].
    intros a l' _ IH F. constructor; [assumption|].
    eapply Forall_impl; [|exact F]. intros b L. apply str_leb_spec. now left.
  - rewrite map_id.
    apply (Permutation_NoDup (Permutation_sym (insertar_perm str_leb e l))).
    constructor; [assumption|].
    clear Ni. induction S as [|a l' S IH F]; constructor; [|assumption].
    intros I. rewrite Forall_forall in F. exact (str_lt_irrefl _ (F _ I)).
Qed.

(** A new leaf that brings one name not yet seen adds that name alone. *)
Lemma todos_nombres_nueva (d : almacen) (k : str * str) (h : hoja) (e : str) :
  dict_get k d = None ->
  ~ In e (todos_nombres campo d) ->
  In e (dict_keys (campo h)) ->
  (forall n, In n (dict_keys (campo h)) -> n = e \/ In n (todos_nombres campo d)) ->
  todos_nombres campo (dict_set k h d) = insertar str_leb e (todos_nombres campo d).
Proof.
  intros Hk Ne Ie Hn. rewrite dict_set_nuevo by assumption.
  apply (ordenada_unica str_lt).
  - apply str_lt_irrefl.
  - intros a b c. apply str_ltb_trans.
  - apply todos_nombres_estricta.
  - apply insertar_estricta; [apply todos_nombres_estricta|assumption].
  - intros x. rewrite todos_nombres_In.
    rewrite insertar_In, todos_nombres_In. split.
    + intros [kv [I J]]. apply in_app_or in I as [I|[<-|[]]].
      * right. eauto.
      * simpl in J. destruct (Hn _ J) as [->|I]; [now left|].
        right. now apply todos_nombres_In.
    + intros [<-|[kv [I J]]].
      * exists (k, h). split; [apply in_or_app; right; now left|assumption].
      * exists kv. split; [apply in_or_app; now left|assumption].
Qed.

(** A new leaf whose names have all been seen leaves the names as they are. *)
Lemma todos_nombres_igual (d : almacen) (k : str * str) (h : hoja) :
  dict_get k d = None ->
  (forall n, In n (dict_keys (campo h)) -> In n (todos_nombres campo d)) ->
  todos_nombres campo (dict_set k h d) = todos_nombres campo d.
Proof.
  intros Hk Hn. rewrite dict_set_nuevo by assumption.
  apply (ordenada_unica str_lt).
  - apply str_lt_irrefl.
  - intros a b c. apply str_ltb_trans.
  - apply todos_nombres_estricta.
  - apply todos_nombres_estricta.
  - intros x. rewrite !todos_nombres_In. split.
    + intros [kv [I J]]. apply in_app_or in I as [I|[<-|[]]]; [eauto|].
      simpl in J. apply todos_nombres_In. auto.
    + intros [kv [I J]]. exists kv. split; [apply in_or_app; now left|assumption].
Qed.
End Esquema.

(** ** Matrix assembly *)

Lemma filas_perm (d : almacen) :
  Permutation (filas (_crear_dataframe_final d))
              (map (fila_de (todos_nombres candidatos d) (todos_nombres totales d)) d).
Proof. unfold _crear_dataframe_final. simpl. apply ordenar_perm. Qed.

Lemma identidad_fila_de (tc tt : list str) (d : almacen) :
  map identidad (map (fila_de tc tt) d) = dict_keys d.
Proof.
  unfold dict_keys. rewrite map_map. apply map_ext.
  intros [[c r] h]. reflexivity.
Qed.

Lemma filas_identidades (d : almacen) :
  Permutation (map identidad (filas (_crear_dataframe_final d))) (dict_keys d).
Proof.
  rewrite <- (identidad_fila_de (todos_nombres candidatos d) (todos_nombres totales d)).
  apply Permutation_map, filas_perm.
Qed.

Lemma filas_In (d : almacen) (f : fila) :
  In f (filas (_crear_dataframe_final d))
  <-> exists kv, In kv d
        /\ f = fila_de (todos_nombres candidatos d) (todos_nombres totales d) kv.
Proof.
  split.
  - intros I. apply (Permutation_in _ (filas_perm d)) in I.
    apply in_map_iff in I as [kv [E I]]. eauto.
  - intros [kv [I ->]].
    apply (Permutation_in _ (Permutation_sym (filas_perm d))).
    now apply in_map.
Qed.

Lemma filas_ordenadas (d : almacen) :
  dict_ok d -> StronglySorted fila_lt (filas (_crear_dataframe_final d)).
Proof.
  intros OK.
  apply (ordenada_estricta (fun a b => fila_leb a b = true) fila_lt identidad).
  - intros a b L N. apply fila_leb_spec in L as [L|E]; [assumption|contradiction].
  - unfold _crear_dataframe_final. simpl.
    apply ordenar_ordenada; [apply fila_leb_total|apply fila_leb_trans].
  - apply (Permutation_NoDup (Permutation_sym (filas_identidades d))). exact OK.
Qed.

Section PasoExito.
Variable web : sitio.
Variable MAPEO_CANDIDATOS : dict str str.

Lemma guardar_progreso_campos (s : scraper) :
  datos_completos (_guardar_progreso_parcial web s) = datos_completos s
  /\ comunas_procesadas (_guardar_progreso_parcial web s) = comunas_procesadas s
  /\ comunas_con_error (_guardar_progreso_parcial web s) = comunas_con_error s
  /\ region_activa (_guardar_progreso_parcial web s) = region_activa s
  /\ bitacora (_guardar_progreso_parcial web s) = bitacora s.
Proof.
  unfold _guardar_progreso_parcial. destruct (datos_completos s) eqn:E; simpl; auto.
  destruct (progreso_escribible web (comunas_procesadas s)); simpl; auto.
Qed.

(** A leaf that yields at least one candidate is stored under its key. *)
Lemma procesar_comuna_exito (s : scraper) (comuna_nombre region_normalizada : str)
    (dc dt : registro) :
  _extraer_datos_comuna MAPEO_CANDIDATOS
    (pagina_comuna web (region_activa s) comuna_nombre) = Some (dc, dt) ->
  dc <> [] ->
  let s' := _procesar_comuna_individual web MAPEO_CANDIDATOS s
              comuna_nombre region_normalizada in
  datos_completos s'
  = dict_set (normalizar_nombre_comuna comuna_nombre, region_normalizada)
             {| candidatos := dc; totales := dt |} (datos_completos s)
  /\ comunas_procesadas s' = (comunas_procesadas s + 1)%Z
  /\ comunas_con_error s' = comunas_con_error s
  /\ region_activa s' = region_activa s
  /\ bitacora s'
     = bitacora s
       ++ [Procesando (normalizar_nombre_comuna comuna_nombre) region_normalizada;
           Extraida (normalizar_nombre_comuna comuna_nombre) (List.length dc)
                    (comunas_procesadas s + 1)].
Proof.
  intros E N. unfold _procesar_comuna_individual. simpl. rewrite E.
  destruct dc as [|x dc]; [congruence|].
  match goal with
  | |- context [if ?b then _guardar_progreso_parcial _ ?t else _] =>
    destruct b; [pose proof (guardar_progreso_campos t) as [H1 [H2 [H3 [H4 H5]]]]|]
  end.
  - cbv zeta. rewrite H1, H2, H3, H4, H5. simpl.
    rewrite <- app_assoc. repeat split.
  - cbv zeta. simpl. rewrite <- app_assoc. repeat split.
Qed.

(** A leaf without table or without candidates only counts as an error. *)
Lemma procesar_comuna_fallo (s : scraper) (comuna_nombre region_normalizada : str) :
  match _extraer_datos_comuna MAPEO_CANDIDATOS
          (pagina_comuna web (region_activa s) comuna_nombre) with
  | Some (_ :: _, _) => False
  | _ => True
  end ->
  _procesar_comuna_individual web MAPEO_CANDIDATOS s comuna_nombre region_normalizada
  = {| datos_completos := datos_completos s;
       comunas_procesadas := comunas_procesadas s;
       comunas_con_error := comunas_con_error s + 1;
       region_activa := region_activa s;
       bitacora := bitacora s
                   ++ [Procesando (normalizar_nombre_comuna comuna_nombre)
                                  region_normalizada;
                       SinDatos (normalizar_nombre_comuna comuna_nombre)];
       progreso_parcial := progreso_parcial s |}.
Proof.
  unfold _procesar_comuna_individual. simpl.
  destruct (_extraer_datos_comuna _ _) as [[[|x dc] dt]|]; intros H;
    try contradiction; unfold anotar; simpl; rewrite <- app_assoc; reflexivity.
Qed.
End PasoExito.

(** ** Cells of a row under their columns *)

Lemma valores_de_length (nombres : list str) (r : registro) :
  List.length (valores_de nombres r) = (2 * List.length nombres)%nat.
Proof.
  unfold valores_de. induction nombres as [|n l IH]; simpl; [reflexivity|].
  rewrite length_app, IH. unfold par_de. destruct (dict_get n r); simpl; lia.
Qed.

Lemma columnas_de_length (nombres : list str) :
  List.length (columnas_de nombres) = (2 * List.length nombres)%nat.
Proof.
  unfold columnas_de. induction nombres as [|n l IH]; simpl; [reflexivity|].
  rewrite IH. lia.
Qed.

Lemma matriz_forma (d : almacen) :
  let df := _crear_dataframe_final d in
  List.length (filas df) = List.length d
  /\ List.length (columnas df)
     = (2 + 2 * (List.length (todos_nombres candidatos d)
                 + List.length (todos_nombres totales d)))%nat
  /\ Forall (fun f => (2 + List.length (f_valores f))%nat = List.length (columnas df))
            (filas df).
Proof.
  intros df.
  assert (List.length (columnas df)
          = (2 + 2 * (List.length (todos_nombres candidatos d)
                      + List.length (todos_nombres totales d)))%nat) as Hc.
  { unfold df, _crear_dataframe_final. simpl.
    rewrite length_app, !columnas_de_length. lia. }
  split; [|split; [exact Hc|]].
  - unfold df. rewrite (Permutation_length (filas_perm d)). apply length_map.
  - apply Forall_forall. intros f I. apply filas_In in I as [kv [_ ->]].
    rewrite Hc. simpl. rewrite length_app, !valores_de_length. lia.
Qed.

Lemma columnas_literal (d : almacen) :
  columnas (_crear_dataframe_final d)
  = txt "comuna" :: txt "region"
    :: flat_map (fun n => [n ++ txt "_votos"; n ++ txt "_pct"])
                (todos_nombres candidatos d ++ todos_nombres totales d).
Proof.
  unfold _crear_dataframe_final. cbn [columnas app]. do 2 f_equal.
  rewrite flat_map_app. reflexivity.
Qed.

Lemma par_de_dos (r : registro) (n : str) :
  par_de r n
  = [CInt (match dict_get n r with Some m => votos m | None => 0%Z end);
     CFloat (match dict_get n r with Some m => porcentaje m | None => FFin 0 end)].
Proof. unfold par_de. destruct (dict_get n r); reflexivity. Qed.

Lemma combinar_columnas (ns : list str) (r : registro) (cs : list str)
    (vs : list celda) :
  combine (columnas_de ns ++ cs) (valores_de ns r ++ vs)
  = flat_map (fun n => combine [n ++ sufijo_votos; n ++ sufijo_pct] (par_de r n)) ns
    ++ combine cs vs.
Proof.
  unfold columnas_de, valores_de. induction ns as [|n ns IH]; [reflexivity|].
  cbn [flat_map]. rewrite par_de_dos. cbn [app combine]. now rewrite IH.
Qed.

(** The labelled cells of the row built for a stored leaf. *)
Lemma rotuladas_fila_de (d : almacen) (kv : (str * str) * hoja) :
  rotuladas (_crear_dataframe_final d)
            (fila_de (todos_nombres candidatos d) (todos_nombres totales d) kv)
  = flat_map (fun n => combine [n ++ sufijo_votos; n ++ sufijo_pct]
                               (par_de (candidatos (snd kv)) n))
             (todos_nombres candidatos d)
    ++ flat_map (fun n => combine [n ++ sufijo_votos; n ++ sufijo_pct]
                                  (par_de (totales (snd kv)) n))
                (todos_nombres totales d).
Proof.
  unfold rotuladas, _crear_dataframe_final, fila_de.
  cbn [columnas f_valores app skipn].
  rewrite combinar_columnas. f_equal.
  rewrite <- (app_nil_r (columnas_de _)), <- (app_nil_r (valores_de _ _)).
  rewrite combinar_columnas. cbn [combine]. apply app_nil_r.
Qed.

Lemma sufijos_distintos (a b : str) : a ++ sufijo_pct <> b ++ sufijo_votos.
Proof.
  intros E. apply (f_equal (@rev N)) in E. rewrite !rev_app_distr in E.
  discriminate E.
Qed.

(** A cell stands under a column of the row of a leaf exactly when the
    column is the count or the share of a name of the schema and the cell
    is the measure the leaf has for that name, or zero when it has none. *)
Lemma rotuladas_In (d : almacen) (kv : (str * str) * hoja) (col : str) (x : celda) :
  In (col, x)
     (rotuladas (_crear_dataframe_final d)
                (fila_de (todos_nombres candidatos d) (todos_nombres totales d) kv))
  <-> exists c n,
        In n (todos_nombres (campo_de c) d)
        /\ ((col = n ++ txt "_votos"
             /\ x = CInt (match dict_get n (campo_de c (snd kv)) with
                          | Some m => votos m
                          | None => 0%Z
                          end))
            \/ (col = n ++ txt "_pct"
                /\ x = CFloat (match dict_get n (campo_de c (snd kv)) with
                               | Some m => porcentaje m
                               | None => FFin 0
                               end))).
Proof.
  change (txt "_votos") with sufijo_votos. change (txt "_pct") with sufijo_pct.
  rewrite rotuladas_fila_de, in_app_iff, !in_flat_map.
  assert (forall r n,
             In (col, x) (combine [n ++ sufijo_votos; n ++ sufijo_pct] (par_de r n))
             <-> (col = n ++ sufijo_votos
                  /\ x = CInt (match dict_get n r with
                               | Some m => votos m | None => 0%Z end))
                 \/ (col = n ++ sufijo_pct
                     /\ x = CFloat (match dict_get n r with
                                    | Some m => porcentaje m | None => FFin 0 end)))
    as P.
  { intros r n. rewrite par_de_dos. cbn [combine In]. split.
    - intros [E|[E|[]]]; injection E as <- <-; auto.
    - intros [[-> ->]|[-> ->]]; auto. }
  split.
  - intros [[n [I J]]|[n [I J]]]; apply P in J.
    + exists Candidato, n. auto.
    + exists Agregado, n. auto.
  - intros [[|] [n [I J]]]; apply P in J; [left|right]; exists n; auto.
Qed.

Lemma fila_de_la_clave (d : almacen) (k : str * str) (h : hoja) (f : fila) :
  dict_ok d -> dict_get k d = Some h ->
  In f (filas (_crear_dataframe_final d)) -> identidad f = k ->
  f = fila_de (todos_nombres candidatos d) (todos_nombres totales d) (k, h).
Proof.
  intros OK G I E. apply filas_In in I as [[k0 h0] [I ->]].
  assert (k0 = k) as -> by (destruct k0; exact E).
  apply (dict_In_get _ _ _ OK) in I. congruence.
Qed.

Lemma insertar_parte {A : Type} (leb : A -> A -> bool) (x : A) (l : list A) :
  exists l1 l2, l = l1 ++ l2 /\ insertar leb x l = l1 ++ x :: l2.
Proof.
  induction l as [|y l [l1 [l2 [E1 E2]]]]; simpl.
  - exists [], []. auto.
  - destruct (leb x y).
    + exists [], (y :: l). auto.
    + exists (y :: l1), l2. rewrite E2. split; [now rewrite E1 at 1|reflexivity].
Qed.

(** C6: assigning to a key that the store already holds keeps the keys,
    and so the size, as they were, and replaces the value of that key and
    of no other.  The matrix assembled afterwards has as many rows as
    before and exactly one row for the key; that row has a cell for every
    column, shows under the count and share columns of every name of the
    new value the measure that the new value gives it, and holds nothing
    else than measures of the new value and zeros.  The assignment is the
    one the walker performs for a leaf that yields candidates. *)
Theorem C6_reinsercion (d : almacen) (k : str * str) (h : hoja) :
  dict_ok d -> dict_in k d = true ->
  let d' := dict_set k h d in
  let df' := _crear_dataframe_final d' in
  List.length d' = List.length d
  /\ dict_keys d' = dict_keys d
  /\ dict_ok d'
  /\ dict_get k d' = Some h
  /\ (forall k', k' <> k -> dict_get k' d' = dict_get k' d)
  /\ List.length (filas df') = List.length d
  /\ (exists f, In f (filas df') /\ identidad f = k)
  /\ (forall f g, In f (filas df') -> In g (filas df') ->
        identidad f = k -> identidad g = k -> f = g)
  /\ (forall f, In f (filas df') -> identidad f = k ->
        (2 + List.length (f_valores f))%nat = List.length (columnas df')
        /\ f_valores f
           = flat_map (par_de (candidatos h)) (todos_nombres candidatos d')
             ++ flat_map (par_de (totales h)) (todos_nombres totales d')
        /\ (forall c n m, dict_get n (campo_de c h) = Some m ->
              In (n ++ txt "_votos", CInt (votos m)) (rotuladas df' f)
              /\ In (n ++ txt "_pct", CFloat (porcentaje m)) (rotuladas df' f))
        /\ (forall col x, In (col, x) (rotuladas df' f) ->
              exists c n,
                In n (todos_nombres (campo_de c) d')
                /\ match dict_get n (campo_de c h) with
                   | Some m => (col = n ++ txt "_votos" /\ x = CInt (votos m))
                               \/ (col = n ++ txt "_pct" /\ x = CFloat (porcentaje m))
                   | None => (col = n ++ txt "_votos" /\ x = CInt 0)
                             \/ (col = n ++ txt "_pct" /\ x = CFloat (FFin 0))
                   end))
  /\ (forall web mapeo s comuna region dc dt,
        _extraer_datos_comuna mapeo (pagina_comuna web (region_activa s) comuna)
        = Some (dc, dt) ->
        dc <> [] ->
        datos_completos (_procesar_comuna_individual web mapeo s comuna region)
        = dict_set (normalizar_nombre_comuna comuna, region)
                   {| candidatos := dc; totales := dt |} (datos_completos s)).
Proof.
  intros OK Hin d' df'.
  assert (dict_get k d <> None) as Hk.
  { unfold dict_in in Hin. destruct (dict_get k d); congruence. }
  assert (dict_keys d' = dict_keys d) as Hkeys by now apply dict_set_presente.
  assert (dict_ok d') as OK' by now apply dict_ok_set.
  assert (dict_get k d' = Some h) as Hget by apply dict_get_set_same.
  assert (List.length d' = List.length d) as Hlen.
  { unfold dict_keys in Hkeys.
    rewrite <- (length_map fst d'), Hkeys. apply length_map. }
  assert (In (fila_de (todos_nombres candidatos d') (todos_nombres totales d') (k, h))
             (filas df')) as Hfila.
  { apply filas_In. exists (k, h). split; [|reflexivity]. now apply dict_get_In. }
  destruct (matriz_forma d') as [M1 [_ M3]]. fold df' in M1, M3.
  split; [exact Hlen|]. split; [exact Hkeys|]. split; [exact OK'|].
  split; [exact Hget|]. split; [|split; [|split; [|split; [|split]]]].
  - intros k' N. now apply dict_get_set_other.
  - now rewrite M1.
  - eexists. split; [exact Hfila|]. destruct k. reflexivity.
  - intros f g If Ig Ef Eg.
    rewrite (fila_de_la_clave d' k h f OK' Hget If Ef).
    now rewrite (fila_de_la_clave d' k h g OK' Hget Ig Eg).
  - intros f If Ef. split; [|split; [|split]].
    + rewrite Forall_forall in M3. now apply M3.
    + rewrite (fila_de_la_clave d' k h f OK' Hget If Ef). reflexivity.
    + intros c n m G.
      rewrite (fila_de_la_clave d' k h f OK' Hget If Ef).
      assert (In n (todos_nombres (campo_de c) d')) as In'.
      { apply todos_nombres_In. exists (k, h). split; [now apply dict_get_In|].
        apply dict_get_In in G.
        change (In (fst (n, m)) (map fst (campo_de c h))). now apply in_map. }
      split; apply rotuladas_In; exists c, n; (split; [exact In'|]);
        cbn [snd]; rewrite G; auto.
    + intros col x I.
      rewrite (fila_de_la_clave d' k h f OK' Hget If Ef) in I.
      apply rotuladas_In in I as [c [n [In' J]]]. cbn [snd] in J.
      exists c, n. split; [exact In'|].
      destruct (dict_get n (campo_de c h)); exact J.
  - intros web mapeo s comuna region dc dt E N.
    exact (proj1 (procesar_comuna_exito web mapeo s comuna region dc dt E N)).
Qed.

Lemma C6_reinsercion_witness :
  let d' := dict_set (txt "Talca", txt "Maule") hoja_ejemplo almacen_ejemplo in
  List.length d' = List.length almacen_ejemplo
  /\ dict_get (txt "Talca", txt "Maule") d' = Some hoja_ejemplo
  /\ exists f,
       In f (filas (_crear_dataframe_final d'))
       /\ identidad f = (txt "Talca", txt "Maule")
       /\ In (txt "mora_votos", CInt 1) (rotuladas (_crear_dataframe_final d') f)
       /\ In (txt "perez_votos", CInt 1) (rotuladas (_crear_dataframe_final d') f).
Proof.
  assert (dict_ok almacen_ejemplo) as OK.
  { unfold dict_ok. vm_compute.
    repeat constructor; simpl; intuition discriminate. }
  pose proof (C6_reinsercion almacen_ejemplo (txt "Talca", txt "Maule")
                             hoja_ejemplo OK eq_refl)
    as [H1 [_ [_ [H4 [_ [_ [[f [If Ef]] [_ [H9 _]]]]]]]]].
  intros d'. split; [exact H1|]. split; [exact H4|].
  exists f. split; [exact If|]. split; [exact Ef|].
  destruct (H9 f If Ef) as [_ [_ [Hc _]]]. split.
  - exact (proj1 (Hc Candidato (txt "mora")
                     {| votos := 1; porcentaje := FFin (50 # 1) |} eq_refl)).
  - exact (proj1 (Hc Candidato (txt "perez")
                     {| votos := 1; porcentaje := FFin (50 # 1) |} eq_refl)).
Defined.

(** C3: the columns are the two identity columns, then the count and the
    share column of each candidate name, then those of each aggregate
    name; the names of a kind are exactly those carried by some stored
    leaf, in strictly increasing lexicographic order; every row has one
    cell for each column.  Storing a leaf that carries one name [e] seen
    in no stored leaf, all its other names being known, makes [e] the only
    name that the schema gains.  When the key is new, the names of the
    kind of [e] are those of before with [e] put in its place, the other
    kind is as it was, and the columns are those of before with the count
    and share columns of [e] put between them.  Every leaf stored before
    under another key has its row in the new matrix, and that row shows
    the count 0 and the share 0.0 under the columns of [e] and nothing
    else under them. *)
Theorem C3_esquema (d : almacen) :
  let df := _crear_dataframe_final d in
  columnas df
  = txt "comuna" :: txt "region"
    :: flat_map (fun n => [n ++ txt "_votos"; n ++ txt "_pct"])
                (todos_nombres candidatos d ++ todos_nombres totales d)
  /\ (forall c : clase,
        StronglySorted str_lt (todos_nombres (campo_de c) d)
        /\ (forall n, In n (todos_nombres (campo_de c) d)
                      <-> exists kv, In kv d /\ In n (dict_keys (campo_de c (snd kv)))))
  /\ (forall f, In f (filas df) ->
        (2 + List.length (f_valores f))%nat = List.length (columnas df))
  /\ (forall (c : clase) (k : str * str) (h : hoja) (e : str),
        dict_ok d ->
        ~ In e (todos_nombres candidatos d) ->
        ~ In e (todos_nombres totales d) ->
        In e (dict_keys (campo_de c h)) ->
        (forall n, In n (dict_keys (campo_de c h)) ->
                   n = e \/ In n (todos_nombres (campo_de c) d)) ->
        (forall n, In n (dict_keys (campo_de (otra c) h)) ->
                   In n (todos_nombres (campo_de (otra c)) d)) ->
        let d' := dict_set k h d in
        let df' := _crear_dataframe_final d' in
        (forall c' n, In n (todos_nombres (campo_de c') d')
                      /\ ~ In n (todos_nombres (campo_de c') d)
                      <-> c' = c /\ n = e)
        /\ (dict_get k d = None ->
              todos_nombres (campo_de c) d'
              = insertar str_leb e (todos_nombres (campo_de c) d)
              /\ todos_nombres (campo_de (otra c)) d'
                 = todos_nombres (campo_de (otra c)) d
              /\ (exists antes despues,
                    columnas df = antes ++ despues
                    /\ columnas df'
                       = antes ++ [e ++ txt "_votos"; e ++ txt "_pct"] ++ despues)
              /\ List.length (columnas df') = (2 + List.length (columnas df))%nat)
        /\ (forall kv, In kv d -> fst kv <> k ->
              exists f,
                In f (filas df') /\ identidad f = fst kv
                /\ In (e ++ txt "_votos", CInt 0) (rotuladas df' f)
                /\ In (e ++ txt "_pct", CFloat (FFin 0)) (rotuladas df' f)
                /\ (forall x, In (e ++ txt "_votos", x) (rotuladas df' f) -> x = CInt 0)
                /\ (forall x, In (e ++ txt "_pct", x) (rotuladas df' f)
                              -> x = CFloat (FFin 0)))).
Proof.
  intros df. split; [apply columnas_literal|]. split; [|split].
  - intros c. split; [apply todos_nombres_estricta|].
    intros n. apply todos_nombres_In.
  - intros f I. pose proof (matriz_forma d) as [_ [_ M]].
    rewrite Forall_forall in M. now apply M.
  - intros c k h e OK Nc Nt Ie Hn Ho d' df'.
    assert (forall c0, ~ In e (todos_nombres (campo_de c0) d)) as Ne
      by (intros [|]; assumption).
    assert (forall c0 kv, In kv d -> dict_get e (campo_de c0 (snd kv)) = None) as Hcero.
    { intros c0 kv I. apply dict_get_None. intros J. apply (Ne c0).
      apply todos_nombres_In. eauto. }
    assert (In e (todos_nombres (campo_de c) d')) as Ie'.
    { apply todos_nombres_In. exists (k, h). split; [|exact Ie].
      apply dict_get_In. apply dict_get_set_same. }
    split; [|split].
    + intros c' n. rewrite !todos_nombres_In. split.
      * intros [[[k' h'] [I J]] Nn]. apply (dict_set_In k k' h h' d OK) in I.
        destruct I as [[-> ->]|[Nk I]].
        -- cbn [snd] in J. destruct c, c'; cbn [campo_de otra] in *.
           ++ destruct (Hn _ J) as [E|I]; [auto|].
              apply todos_nombres_In in I. contradiction.
           ++ exfalso. apply Nn. apply (todos_nombres_In totales). auto.
           ++ exfalso. apply Nn. apply (todos_nombres_In candidatos). auto.
           ++ destruct (Hn _ J) as [E|I]; [auto|].
              apply todos_nombres_In in I. contradiction.
        -- exfalso. apply Nn. exists (k', h'). auto.
      * intros [-> ->]. split.
        -- apply todos_nombres_In. exact Ie'.
        -- intros J. apply (Ne c). now apply todos_nombres_In.
    + intros Hk.
      assert (todos_nombres (campo_de c) d'
              = insertar str_leb e (todos_nombres (campo_de c) d)) as E1
        by (apply todos_nombres_nueva; auto).
      assert (todos_nombres (campo_de (otra c)) d'
              = todos_nombres (campo_de (otra c)) d) as E2
        by (apply todos_nombres_igual; auto).
      split; [exact E1|]. split; [exact E2|].
      destruct (insertar_parte str_leb e (todos_nombres (campo_de c) d))
        as [l1 [l2 [P1 P2]]].
      rewrite P2 in E1.
      assert (exists antes despues,
                 columnas df = antes ++ despues
                 /\ columnas df'
                    = antes ++ [e ++ txt "_votos"; e ++ txt "_pct"] ++ despues) as X.
      { unfold df, df'. rewrite !columnas_literal.
        destruct c; cbn [campo_de otra] in *; rewrite E1, E2, P1.
        - exists (txt "comuna" :: txt "region"
                  :: flat_map (fun n => [n ++ txt "_votos"; n ++ txt "_pct"]) l1),
                 (flat_map (fun n => [n ++ txt "_votos"; n ++ txt "_pct"])
                           (l2 ++ todos_nombres totales d)).
          split.
          + cbn [app]. now rewrite <- flat_map_app, <- app_assoc.
          + rewrite <- app_assoc. cbn [app]. do 2 f_equal. apply flat_map_app.
        - exists (txt "comuna" :: txt "region"
                  :: flat_map (fun n => [n ++ txt "_votos"; n ++ txt "_pct"])
                              (todos_nombres candidatos d ++ l1)),
                 (flat_map (fun n => [n ++ txt "_votos"; n ++ txt "_pct"]) l2).
          split.
          + cbn [app]. now rewrite <- flat_map_app, <- app_assoc.
          + rewrite app_assoc. cbn [app]. do 2 f_equal. apply flat_map_app. }
      split; [exact X|].
      destruct X as [a [b [Xa Xb]]]. rewrite Xa, Xb, !length_app.
      cbn [List.length]. apply Nat.add_shuffle3.
    + intros [k' h'] I Nk. cbn [fst] in Nk.
      exists (fila_de (todos_nombres candidatos d') (todos_nombres totales d') (k', h')).
      split.
      { apply filas_In. exists (k', h'). split; [|reflexivity].
        apply (dict_set_In k k' h h' d OK). right. auto. }
      split; [destruct k'; reflexivity|].
      split; [|split; [|split]].
      * apply rotuladas_In. exists c, e. split; [exact Ie'|]. left.
        split; [reflexivity|]. now rewrite (Hcero c (k', h') I).
      * apply rotuladas_In. exists c, e. split; [exact Ie'|]. right.
        split; [reflexivity|]. now rewrite (Hcero c (k', h') I).
      * intros x J. apply rotuladas_In in J as [c0 [n [_ [[E ->]|[E _]]]]].
        -- apply app_inv_tail in E. subst n. now rewrite (Hcero c0 (k', h') I).
        -- exfalso. symmetry in E. exact (sufijos_distintos _ _ E).
      * intros x J. apply rotuladas_In in J as [c0 [n [_ [[E _]|[E ->]]]]].
        -- exfalso. exact (sufijos_distintos _ _ E).
        -- apply app_inv_tail in E. subst n. now rewrite (Hcero c0 (k', h') I).
Qed.

Lemma C3_esquema_witness :
  let d' := dict_set clave_ejemplo hoja_ejemplo almacen_ejemplo in
  todos_nombres candidatos d' = [txt "mora"; txt "perez"; txt "soto"]
  /\ todos_nombres totales d' = todos_nombres totales almacen_ejemplo
  /\ List.length (columnas (_crear_dataframe_final d'))
     = (2 + List.length (columnas (_crear_dataframe_final almacen_ejemplo)))%nat
  /\ Forall (fun kv =>
               exists f,
                 In f (filas (_crear_dataframe_final d'))
                 /\ identidad f = fst kv
                 /\ In (txt "mora_votos", CInt 0) (rotuladas (_crear_dataframe_final d') f)
                 /\ In (txt "mora_pct", CFloat (FFin 0))
                       (rotuladas (_crear_dataframe_final d') f))
            almacen_ejemplo.
Proof.
  assert (dict_ok almacen_ejemplo) as OK.
  { unfold dict_ok. vm_compute.
    repeat constructor; simpl; intuition discriminate. }
  destruct (C3_esquema almacen_ejemplo) as [_ [_ [_ H]]].
  destruct (H Candidato clave_ejemplo hoja_ejemplo (txt "mora") OK)
    as [_ [H2 H3]].
  - vm_compute. intuition discriminate.
  - vm_compute. intuition discriminate.
  - vm_compute. auto.
  - vm_compute. intros n [<-|[<-|[]]]; auto.
  - vm_compute. intros n [<-|[]]. auto.
  - destruct (H2 eq_refl) as [E1 [E2 [_ E4]]].
    intros d'. split; [|split; [|split]].
    + exact E1.
    + exact E2.
    + exact E4.
    + apply Forall_forall. intros kv I.
      assert (fst kv <> clave_ejemplo) as N.
      { destruct I as [<-|[<-|[]]]; discriminate. }
      destruct (H3 kv I N) as [f [If [Ef [Z1 [Z2 _]]]]].
      exists f. repeat split; assumption.
Defined.

(** ** Hierarchy walk *)

Lemma extraer_sin_tabla (mapeo : dict str str) (r : respuesta) :
  _encontrar_tabla_resultados r = None -> _extraer_datos_comuna mapeo r = None.
Proof.
  intros H. destruct r; simpl in *; try reflexivity.
  unfold _procesar_tabla_resultados. simpl. now rewrite H.
Qed.

(** C8: when the results table of a leaf cannot be located, or its
    extraction has no candidate, the attempt adds one to the error counter
    and changes neither the success counter nor the store; the matrix is
    the one of before, with no row for a leaf that had none; and the loop
    goes on with the next leaf. *)
Theorem C8_hoja_sin_datos (web : sitio) (max_comunas : option Z)
    (mapeo : dict str str) (s : scraper) (comuna region : str) (resto : list str) :
  let r := pagina_comuna web (region_activa s) comuna in
  _encontrar_tabla_resultados r = None
  \/ (exists dt, _extraer_datos_comuna mapeo r = Some ([], dt)) ->
  let s' := _procesar_comuna_individual web mapeo s comuna region in
  comunas_con_error s' = (comunas_con_error s + 1)%Z
  /\ comunas_procesadas s' = comunas_procesadas s
  /\ datos_completos s' = datos_completos s
  /\ progreso_parcial s' = progreso_parcial s
  /\ _crear_dataframe_final (datos_completos s')
     = _crear_dataframe_final (datos_completos s)
  /\ (dict_get (normalizar_nombre_comuna comuna, region) (datos_completos s) = None ->
      forall f, In f (filas (_crear_dataframe_final (datos_completos s'))) ->
                identidad f <> (normalizar_nombre_comuna comuna, region))
  /\ (limite_alcanzado max_comunas s = false ->
      bucle_comunas web max_comunas mapeo s region (comuna :: resto)
      = bucle_comunas web max_comunas mapeo s' region resto).
Proof.
  intros r H s'.
  assert (s' = {| datos_completos := datos_completos s;
                  comunas_procesadas := comunas_procesadas s;
                  comunas_con_error := comunas_con_error s + 1;
                  region_activa := region_activa s;
                  bitacora := bitacora s
                              ++ [Procesando (normalizar_nombre_comuna comuna) region;
                                  SinDatos (normalizar_nombre_comuna comuna)];
                  progreso_parcial := progreso_parcial s |}) as E.
  { apply procesar_comuna_fallo. fold r.
    destruct H as [H|[dt H]].
    - now rewrite (extraer_sin_tabla mapeo r H).
    - now rewrite H. }
  rewrite E. simpl. repeat split.
  - intros Hk f I Hf. apply filas_In in I as [[k0 h0] [I ->]].
    apply dict_get_None in Hk. apply Hk.
    assert (k0 = (normalizar_nombre_comuna comuna, region)) as <-
      by (destruct k0; exact Hf).
    change (In (fst (k0, h0)) (map fst (datos_completos s))). now apply in_map.
  - intros L. rewrite L. now rewrite <- E.
Qed.

Lemma C8_hoja_sin_datos_witness :
  let s := _procesar_comuna_individual (sitio_dos_regiones SinTabla) []
             scraper_inicial (txt "TALCA") (txt "Maule") in
  comunas_con_error s = 1%Z /\ comunas_procesadas s = 0%Z
  /\ filas (_crear_dataframe_final (datos_completos s)) = [].
Proof.
  pose proof (C8_hoja_sin_datos (sitio_dos_regiones SinTabla) None []
                scraper_inicial (txt "TALCA") (txt "Maule") [])
    as H.
  destruct H as [H1 [H2 [_ [_ [H5 _]]]]].
  - left. reflexivity.
  - intros s. split; [exact H1|]. split; [exact H2|].
    unfold s. rewrite H5. reflexivity.
Defined.

Lemma dentro_del_limite_app (n k : Z) (l l' : list evento) :
  dentro_del_limite n k (l ++ l')
  = dentro_del_limite n k l && dentro_del_limite n (k + Z.of_nat (exitos l)) l'.
Proof.
  unfold exitos. revert k. induction l as [|e l IH]; intros k.
  - simpl. now rewrite Z.add_0_r.
  - destruct e; simpl; rewrite IH; rewrite ?andb_assoc; try reflexivity.
    do 2 f_equal. lia.
Qed.

Lemma contar_app (p : evento -> bool) (l l' : list evento) :
  List.length (filter p (l ++ l'))
  = (List.length (filter p l) + List.length (filter p l'))%nat.
Proof. now rewrite filter_app, length_app. Qed.

Section Limite.
Variable web : sitio.
Variable mapeo : dict str str.
Variable n : Z.
Hypothesis n_positivo : (0 < n)%Z.

Let cap : option Z := Some n.

Lemma limite_configurado : limite cap = Some n.
Proof. unfold limite, cap. destruct (Z.eqb_spec n 0); [lia|reflexivity]. Qed.

Lemma limite_alcanzado_spec (s : scraper) :
  limite_alcanzado cap s = true <-> (n <= comunas_procesadas s)%Z.
Proof. unfold limite_alcanzado. rewrite limite_configurado. apply Z.leb_le. Qed.

Lemma bajo_limite_campos (s s' : scraper) :
  bitacora s' = bitacora s -> comunas_procesadas s' = comunas_procesadas s ->
  comunas_con_error s' = comunas_con_error s ->
  bajo_limite n s -> bajo_limite n s'.
Proof. unfold bajo_limite. intros -> -> ->. tauto. Qed.

Lemma bajo_limite_aviso (s : scraper) :
  bajo_limite n s -> bajo_limite n (anotar LimiteAlcanzado s).
Proof.
  unfold bajo_limite, anotar, intentos, exitos, fallos. simpl.
  rewrite dentro_del_limite_app, !contar_app. simpl.
  intros [H1 [H2 [H3 [H4 H5]]]]. rewrite H1. repeat split; try lia.
Qed.

Lemma bajo_limite_hoja (s : scraper) (comuna region : str) :
  bajo_limite n s -> limite_alcanzado cap s = false ->
  bajo_limite n (_procesar_comuna_individual web mapeo s comuna region).
Proof.
  intros [H1 [H2 [H3 [H4 H5]]]] L.
  assert (comunas_procesadas s < n)%Z as Hlt.
  { destruct (Z.lt_ge_cases (comunas_procesadas s) n) as [?|G]; [assumption|].
    apply limite_alcanzado_spec in G. congruence. }
  destruct (_extraer_datos_comuna mapeo (pagina_comuna web (region_activa s) comuna))
    as [[[|x dc] dt]|] eqn:E.
  - rewrite procesar_comuna_fallo by (now rewrite E).
    unfold bajo_limite, intentos, exitos, fallos in *. simpl.
    rewrite dentro_del_limite_app, !contar_app. simpl.
    rewrite H1.
    match goal with
    | |- context [(?a <? n)%Z] =>
      replace (a <? n)%Z with true
        by (symmetry; apply Z.ltb_lt; unfold exitos; lia)
    end.
    repeat split; try lia.
  - destruct (procesar_comuna_exito web mapeo s comuna region (x :: dc) dt E)
      as [_ [P2 [P3 [_ P5]]]]; [discriminate|].
    unfold bajo_limite, intentos, exitos, fallos in *. rewrite P2, P3, P5.
    rewrite dentro_del_limite_app, !contar_app. simpl.
    rewrite H1.
    match goal with
    | |- context [(?a <? n)%Z] =>
      replace (a <? n)%Z with true
        by (symmetry; apply Z.ltb_lt; unfold exitos; lia)
    end.
    repeat split; try lia.
  - rewrite procesar_comuna_fallo by (now rewrite E).
    unfold bajo_limite, intentos, exitos, fallos in *. simpl.
    rewrite dentro_del_limite_app, !contar_app. simpl.
    rewrite H1.
    match goal with
    | |- context [(?a <? n)%Z] =>
      replace (a <? n)%Z with true
        by (symmetry; apply Z.ltb_lt; unfold exitos; lia)
    end.
    repeat split; try lia.
Qed.

Lemma bajo_limite_comunas (comunas : list str) (region : str) (s : scraper) :
  bajo_limite n s -> bajo_limite n (bucle_comunas web cap mapeo s region comunas).
Proof.
  revert s. induction comunas as [|c l IH]; intros s I; simpl; [assumption|].
  destruct (limite_alcanzado cap s) eqn:L.
  - now apply bajo_limite_aviso.
  - apply IH. now apply bajo_limite_hoja.
Qed.

Lemma bajo_limite_region (region : str) (s : scraper) :
  bajo_limite n s -> bajo_limite n (_procesar_region web cap mapeo s region).
Proof.
  intros I. unfold _procesar_region, _obtener_comunas_region.
  destruct (opciones_comuna web region) as [l|]; [|assumption].
  destruct (opciones_validas l) as [|c l'] eqn:E; [now apply (bajo_limite_campos s)|].
  apply bajo_limite_comunas. now apply (bajo_limite_campos s).
Qed.

Lemma bajo_limite_regiones (regiones : list str) (s : scraper) :
  bajo_limite n s -> bajo_limite n (bucle_regiones web cap mapeo s regiones).
Proof.
  revert s. induction regiones as [|r l IH]; intros s I; simpl; [assumption|].
  destruct (limite_alcanzado cap s); [assumption|].
  apply IH. now apply bajo_limite_region.
Qed.

(** Once the cap is reached nothing more is visited, in any region. *)
Lemma regiones_en_el_limite (regiones : list str) (s : scraper) :
  (n <= comunas_procesadas s)%Z -> bucle_regiones web cap mapeo s regiones = s.
Proof.
  intros G. apply limite_alcanzado_spec in G.
  destruct regiones; simpl; [reflexivity|]. now rewrite G.
Qed.

Lemma comunas_en_el_limite (comunas : list str) (region : str) (s : scraper) :
  (n <= comunas_procesadas s)%Z ->
  intentos (bitacora (bucle_comunas web cap mapeo s region comunas))
  = intentos (bitacora s).
Proof.
  intros G. apply limite_alcanzado_spec in G.
  destruct comunas; simpl; [reflexivity|]. rewrite G.
  unfold intentos, anotar. simpl. rewrite contar_app. simpl. lia.
Qed.
End Limite.

(** C1 (amended): the cap [n] bounds the leaves extracted with success.
    In a run from the initial state, every leaf attempt starts while
    fewer than [n] leaves have been extracted, at most [n] leaves are
    extracted, and each attempt is either an extraction or an error, so
    that the attempts are at most [n] plus the failed ones.  From a state
    that has reached the cap no region is visited any more and the loop
    over the leaves of a region starts no attempt. *)
Theorem C1_limite_global (web : sitio) (mapeo : dict str str) (n : Z) :
  (0 < n)%Z ->
  let s := fst (ejecutar_extraccion web (Some n) mapeo scraper_inicial) in
  dentro_del_limite n 0 (bitacora s) = true
  /\ (comunas_procesadas s <= n)%Z
  /\ Z.of_nat (exitos (bitacora s)) = comunas_procesadas s
  /\ Z.of_nat (fallos (bitacora s)) = comunas_con_error s
  /\ (Z.of_nat (intentos (bitacora s)) <= n + comunas_con_error s)%Z
  /\ (forall s0 regiones,
        (n <= comunas_procesadas s0)%Z ->
        bucle_regiones web (Some n) mapeo s0 regiones = s0)
  /\ (forall s0 region comunas,
        (n <= comunas_procesadas s0)%Z ->
        intentos (bitacora (bucle_comunas web (Some n) mapeo s0 region comunas))
        = intentos (bitacora s0)).
Proof.
  intros Hn s.
  assert (bajo_limite n scraper_inicial) as I0.
  { unfold bajo_limite. simpl. repeat split; try reflexivity. lia. }
  assert (bajo_limite n s) as [H1 [H2 [H3 [H4 H5]]]].
  { unfold s, ejecutar_extraccion.
    destruct (navegador_disponible web); simpl; [|assumption].
    destruct (pagina_carga web); simpl; [|assumption].
    destruct (filtro_activable web); simpl; [|assumption].
    destruct (_obtener_regiones web) as [|r l] eqn:E; simpl; [assumption|].
    apply (bajo_limite_regiones web mapeo n Hn (r :: l)). assumption. }
  repeat split; try assumption.
  - lia.
  - intros s0 regiones G. now apply regiones_en_el_limite.
  - intros s0 region comunas G. now apply comunas_en_el_limite.
Qed.

Lemma C1_limite_global_witness :
  let s := fst (ejecutar_extraccion (sitio_dos_regiones (Tablas [tabla_escenario]))
                  (Some 5%Z) [] scraper_inicial) in
  dentro_del_limite 5 0 (bitacora s) = true
  /\ (comunas_procesadas s <= 5)%Z
  /\ intentos (bitacora s) = 5%nat.
Proof.
  intros s.
  destruct (C1_limite_global (sitio_dos_regiones (Tablas [tabla_escenario])) [] 5)
    as [H1 [H2 _]]; [reflexivity|].
  split; [exact H1|]. split; [exact H2|]. reflexivity.
Defined.

(** C1, as worded, fails: with a cap of five, two regions of three and
    four leaves and no table on any leaf, all seven leaves are attempted. *)
Lemma C1_counterexample :
  intentos (bitacora (fst (ejecutar_extraccion (sitio_dos_regiones SinTabla)
                             (Some 5%Z) [] scraper_inicial)))
  = 7%nat.
Proof. vm_compute. reflexivity. Qed.

(** C2 (amended): a run ends with an exception exactly when no browser
    can be started, the page cannot be loaded, the electoral-division
    filter cannot be activated, or no region is listed.  In every other
    case it returns the matrix of its store, whatever happens when the
    leaves of a region are listed, a leaf is selected or its table read. *)
Theorem C2_causas_de_aborto (web : sitio) (max_comunas : option Z)
    (mapeo : dict str str) (s : scraper) :
  let salida := ejecutar_extraccion web max_comunas mapeo s in
  (abortada (snd salida) = true
   <-> navegador_disponible web = false \/ pagina_carga web = false
       \/ filtro_activable web = false \/ _obtener_regiones web = [])
  /\ (abortada (snd salida) = true -> fst salida = s)
  /\ (abortada (snd salida) = false ->
      snd salida = Retorno (_crear_dataframe_final (datos_completos (fst salida)))
      /\ fst salida = bucle_regiones web max_comunas mapeo s (_obtener_regiones web)).
Proof.
  unfold ejecutar_extraccion.
  destruct (navegador_disponible web); simpl; [|intuition congruence].
  destruct (pagina_carga web); simpl; [|intuition congruence].
  destruct (filtro_activable web); simpl; [|intuition congruence].
  destruct (_obtener_regiones web) as [|r l]; simpl; [intuition congruence|].
  intuition congruence.
Qed.

Lemma C2_causas_de_aborto_witness :
  abortada (snd (ejecutar_extraccion sitio_sin_filtro None [] scraper_inicial)) = true
  /\ fst (ejecutar_extraccion sitio_sin_filtro None [] scraper_inicial)
     = scraper_inicial.
Proof.
  destruct (C2_causas_de_aborto sitio_sin_filtro None [] scraper_inicial)
    as [H1 [H2 _]].
  assert (abortada (snd (ejecutar_extraccion sitio_sin_filtro None []
                           scraper_inicial)) = true) as A.
  { apply H1. right. right. left. reflexivity. }
  split; [exact A|exact (H2 A)].
Defined.

(** C2, as worded, fails: a browser is available and a region is listed,
    yet the run ends with the exception of the filter step. *)
Lemma C2_counterexample :
  navegador_disponible sitio_sin_filtro = true
  /\ _obtener_regiones sitio_sin_filtro <> []
  /\ snd (ejecutar_extraccion sitio_sin_filtro None [] scraper_inicial)
     = Excepcion FalloFiltro.
Proof. vm_compute. repeat split. discriminate. Qed.

(** ** Keys of the store along a walk *)


Section ClavesDelRecorrido.
Variable web : sitio.
Variable max_comunas : option Z.
Variable mapeo : dict str str.
Variable P : str * str -> Prop.






End ClavesDelRecorrido.




(* ================================================================= *)
(** * Further properties of the code *)

(** ** Region names *)

Lemma lower_cp_espacio (c : N) : lower_cp c = 32 -> c = 32.
Proof.
  unfold lower_cp. destruct (es_mayuscula c) eqn:E; [|auto].
  apply es_mayuscula_spec in E. lia.
Qed.

(** X1: in the pattern that removes the leading preposition of a region
    name, the alternatives "DE LA" and "DE LOS" never apply: whenever one
    of them could, "DE" followed by a blank has matched before.  Only
    "DE" or "DEL" and the blanks after it are removed, so the article of
    "DE LA ..." stays in the name. *)
Theorem X1_prefijo_alternativas :
  (forall s,
      quitar_prefijo prefijos_region s = quitar_prefijo [txt "DE"; txt "DEL"] s)
  /\ (forall resto,
        quitar_prefijo prefijos_region (txt "DE LA " ++ resto)
        = txt "LA " ++ resto).
Proof.
  change (txt "DE") with [68; 69]. change (txt "DEL") with [68; 69; 76].
  change (txt "DE LA ") with [68; 69; 32; 76; 65; 32].
  change (txt "LA ") with [76; 65; 32].
  split.
  - intros s. unfold prefijos_region. cbn [quitar_prefijo].
    destruct (startswith_ci s [68; 69] && empieza_blanco (skipn (List.length [68; 69]) s))
      eqn:E1; [reflexivity|].
    destruct (startswith_ci s [68; 69; 76]
              && empieza_blanco (skipn (List.length [68; 69; 76]) s));
      [reflexivity|].
    assert (forall p, startswith_ci s ([68; 69; 32] ++ p) = false) as H.
    { intros p. destruct s as [|a [|b [|c s']]]; try reflexivity;
        cbn [app startswith_ci];
        try (now rewrite ?andb_false_r).
      destruct (lower_cp a =? lower_cp 68) eqn:Ea; [|reflexivity].
      destruct (lower_cp b =? lower_cp 69) eqn:Eb; [|reflexivity].
      destruct (lower_cp c =? lower_cp 32) eqn:Ec; [|reflexivity].
      exfalso. apply N.eqb_eq in Ec. change (lower_cp 32) with 32 in Ec.
      apply lower_cp_espacio in Ec. subst c.
      cbn [startswith_ci List.length skipn empieza_blanco] in E1.
      rewrite Ea, Eb in E1. discriminate. }
    pose proof (H [76; 65]) as H3. pose proof (H [76; 79; 83]) as H4.
    cbn [app] in H3, H4. rewrite H3, H4. reflexivity.
  - intros resto. reflexivity.
Qed.

(** ** Candidate names as column stems *)

Lemma es_slug_lower (c : N) :
  es_de_slug (if es_slug (lower_cp c) then lower_cp c else 95) = true.
Proof.
  destruct (es_slug (lower_cp c)) eqn:E; [|reflexivity].
  unfold es_slug in E. unfold es_de_slug.
  destruct (entre 97 122 (lower_cp c)); [reflexivity|].
  destruct (entre 48 57 (lower_cp c)); [reflexivity|].
  destruct (lower_cp c =? 95); [reflexivity|].
  simpl in E. rewrite !orb_false_r in E. exfalso.
  apply entre_spec in E. unfold lower_cp in E.
  destruct (es_mayuscula c) eqn:M.
  - apply es_mayuscula_spec in M. lia.
  - unfold es_mayuscula in M. apply orb_false_iff in M as [M _].
    apply orb_false_iff in M as [M _].
    assert (entre 65 90 c = true) by (apply entre_spec; lia). congruence.
Qed.

Lemma slug_de_palabra (w : str) : forallb es_de_slug (sub_no_slug (lower w)) = true.
Proof.
  unfold sub_no_slug, lower. rewrite map_map, forallb_forall.
  intros x I. apply in_map_iff in I as [c [<- _]]. apply es_slug_lower.
Qed.

(** X2: when every short form of the alias table is made of small ASCII
    letters, digits and underscores, so is every simplified candidate
    name, whatever the label: the name is a safe stem for the column
    names built from it.  Without alias table this holds for every
    label, and when the last token of the label is within Latin-1 the
    name has as many characters as that token. *)
Theorem X2_nombre_de_columna (tabla : dict str str) (etiqueta : str) :
  (Forall (fun e => forallb es_de_slug (snd e) = true) tabla ->
   forallb es_de_slug (simplificar_nombre_candidato tabla etiqueta) = true)
  /\ forallb es_de_slug (simplificar_nombre_candidato [] etiqueta) = true
  /\ (forall antes ultima,
        es_latin1 ultima = true ->
        split etiqueta = antes ++ [ultima] ->
        List.length (simplificar_nombre_candidato [] etiqueta) = List.length ultima).
Proof.
  assert (forall t,
             Forall (fun e => forallb es_de_slug (snd e) = true) t ->
             forallb es_de_slug (simplificar_nombre_candidato t etiqueta) = true) as H.
  { intros t F. unfold simplificar_nombre_candidato. rewrite Forall_forall in F.
    destruct (buscar_exacta _ t) as [c|] eqn:E1.
    { apply buscar_exacta_In in E1. exact (F _ E1). }
    destruct (buscar_parcial _ t) as [c|] eqn:E2.
    { apply buscar_parcial_In in E2 as [l [I _]]. exact (F _ I). }
    destruct (rev (split etiqueta)); [reflexivity|apply slug_de_palabra]. }
  split; [apply H|]. split; [apply H; constructor|].
  intros antes ultima _ E. unfold simplificar_nombre_candidato. simpl.
  rewrite E, rev_app_distr. simpl.
  unfold sub_no_slug, lower. now rewrite !length_map.
Qed.

Lemma X2_nombre_de_columna_witness :
  forallb es_de_slug
    (simplificar_nombre_candidato [(txt "KAST", txt "kast")] (txt "Evelyn Matthei F.")) = true
  /\ List.length (simplificar_nombre_candidato [] (txt "Evelyn Matthei F.")) = 2%nat.
Proof.
  destruct (X2_nombre_de_columna [(txt "KAST", txt "kast")] (txt "Evelyn Matthei F."))
    as [H1 _].
  destruct (X2_nombre_de_columna [] (txt "Evelyn Matthei F.")) as [_ [_ H3]].
  split.
  - apply H1. repeat constructor.
  - apply (H3 [txt "Evelyn"; txt "Matthei"] (txt "F.")); reflexivity.
Defined.

(** ** Records read from a table *)

Lemma dict_set_In_debil {V : Type} (k k' : str) (v v' : V) (d : dict str V) :
  In (k', v') (dict_set k v d) -> (k' = k /\ v' = v) \/ In (k', v') d.
Proof.
  induction d as [|[k0 v0] d IH]; simpl.
  - intros [E|[]]. inversion E. auto.
  - destruct (clave_eqb k k0) eqn:E; simpl.
    + apply clave_eqb_eq in E. subst k0.
      intros [F|I]; [inversion F; auto|auto].
    + intros [F|I]; [auto|]. destruct (IH I); auto.
Qed.

Lemma dict_set_length {V : Type} (k : str) (v : V) (d : dict str V) :
  (List.length (dict_set k v d) <= S (List.length d))%nat.
Proof.
  induction d as [|[k0 v0] d IH]; simpl; [lia|].
  destruct (clave_eqb k k0); simpl; lia.
Qed.

Lemma valor_digitos_no_negativo (ds : str) (acc : Z) :
  (0 <= acc)%Z -> (0 <= valor_digitos acc ds)%Z.
Proof.
  revert acc. induction ds as [|d ds IH]; intros acc H; cbn [valor_digitos];
    [assumption|].
  apply IH. pose proof (N2Z.is_nonneg (d - 48)). lia.
Qed.

(** A row leaves the records as they are, or assigns one measure with a
    count that is not negative, to an aggregate or to a candidate. *)
Lemma procesar_fila_casos (mapeo : dict str str) (celdas : list str)
    (dc dt : registro) :
  _procesar_fila mapeo celdas dc dt = (dc, dt)
  \/ (exists k m, In k nombres_de_totales /\ (0 <= votos m)%Z
                  /\ _procesar_fila mapeo celdas dc dt = (dc, dict_set k m dt))
  \/ (exists k m, (0 <= votos m)%Z
                  /\ _procesar_fila mapeo celdas dc dt = (dict_set k m dc, dt)).
Proof.
  unfold _procesar_fila.
  destruct (nth_error celdas 0) as [c0|]; [|now left].
  destruct (nth_error celdas 1) as [c1|]; [|now left].
  destruct (nth_error celdas 2) as [c2|]; [|now left].
  set (vt := replace 46 [] (strip c1)).
  assert (forall z, (if isdigit vt then py_int vt else Some 0%Z) = Some z ->
                    (0 <= z)%Z) as Hz.
  { intros z. destruct (isdigit vt).
    - unfold py_int. destruct (forallb isdecimal_cp vt && _); [|discriminate].
      intros [= <-]. apply valor_digitos_no_negativo. lia.
    - intros [= <-]. lia. }
  destruct (if isdigit vt then py_int vt else Some 0%Z) as [z|]; [|now left].
  specialize (Hz z eq_refl).
  match goal with
  | |- context [{| votos := z; porcentaje := ?p |}] =>
    set (m := {| votos := z; porcentaje := p |})
  end.
  destruct (contiene _ (txt "BLANCO")).
  { right. left. exists k_blanco, m. simpl. auto. }
  destruct (contiene _ (txt "NULO")).
  { right. left. exists k_nulo, m. simpl. auto. }
  destruct (contiene _ (txt "EMITIDO") || contiene _ (txt "TOTAL")).
  { right. left. exists k_emitidos, m. simpl. auto 6. }
  destruct (negb _ && negb _).
  - right. right. eexists _, m. split; [exact Hz|reflexivity].
  - now left.
Qed.

Lemma registros_sanos_vacios : registros_sanos [] [].
Proof.
  split; [constructor|]. split; [constructor|]. split.
  - intros k [].
  - intros k m [].
Qed.

Lemma procesar_fila_sanos (mapeo : dict str str) (celdas : list str)
    (dc dt : registro) :
  registros_sanos dc dt ->
  registros_sanos (fst (_procesar_fila mapeo celdas dc dt))
                  (snd (_procesar_fila mapeo celdas dc dt)).
Proof.
  intros [O1 [O2 [Hk Hv]]].
  destruct (procesar_fila_casos mapeo celdas dc dt)
    as [E|[[k [m [Ik [Hm E]]]]|[k [m [Hm E]]]]]; rewrite E; simpl.
  - repeat split; assumption.
  - repeat split; try assumption.
    + now apply dict_ok_set.
    + intros k' I. unfold dict_keys in I. apply in_map_iff in I as [[k0 m0] [<- I]].
      apply dict_set_In_debil in I as [[-> _]|I]; [assumption|].
      apply Hk. change (In (fst (k0, m0)) (map fst dt)). now apply in_map.
    + intros k' m' I. apply in_app_or in I as [I|I].
      * apply (Hv k' m'). apply in_or_app. now left.
      * apply dict_set_In_debil in I as [[_ ->]|I]; [assumption|].
        apply (Hv k' m'). apply in_or_app. now right.
  - repeat split; try assumption.
    + now apply dict_ok_set.
    + intros k' m' I. apply in_app_or in I as [I|I].
      * apply dict_set_In_debil in I as [[_ ->]|I]; [assumption|].
        apply (Hv k' m'). apply in_or_app. now left.
      * apply (Hv k' m'). apply in_or_app. now right.
Qed.

Lemma procesar_fila_tamano (mapeo : dict str str) (celdas : list str)
    (dc dt : registro) :
  (List.length (fst (_procesar_fila mapeo celdas dc dt))
   + List.length (snd (_procesar_fila mapeo celdas dc dt))
   <= S (List.length dc + List.length dt))%nat.
Proof.
  destruct (procesar_fila_casos mapeo celdas dc dt)
    as [E|[[k [m [_ [_ E]]]]|[k [m [_ E]]]]]; rewrite E; simpl.
  - lia.
  - pose proof (dict_set_length k m dt). lia.
  - pose proof (dict_set_length k m dc). lia.
Qed.

Lemma filas_sanas (mapeo : dict str str) (filas : list (list str))
    (acc : registro * registro) :
  registros_sanos (fst acc) (snd acc) ->
  let fin := fold_left (fun acc celdas =>
                          _procesar_fila mapeo celdas (fst acc) (snd acc))
                       filas acc in
  registros_sanos (fst fin) (snd fin)
  /\ (List.length (fst fin) + List.length (snd fin)
      <= List.length filas + (List.length (fst acc) + List.length (snd acc)))%nat.
Proof.
  revert acc. induction filas as [|celdas filas IH]; intros acc H; simpl.
  - split; [assumption|lia].
  - destruct (IH (_procesar_fila mapeo celdas (fst acc) (snd acc))
                 (procesar_fila_sanos mapeo celdas _ _ H)) as [H1 H2].
    split; [exact H1|].
    pose proof (procesar_fila_tamano mapeo celdas (fst acc) (snd acc)). lia.
Qed.

(** The outcome of an extraction, by the answer of the page. *)
Lemma extraer_casos (mapeo : dict str str) (r : respuesta) :
  _extraer_datos_comuna mapeo r
  = match _encontrar_tabla_resultados r with
    | Some t =>
      match filas_td t with
      | Some filas =>
        Some (fold_left (fun acc celdas =>
                           _procesar_fila mapeo celdas (fst acc) (snd acc))
                        (filter tres_celdas filas) ([], []))
      | None => None
      end
    | None => None
    end.
Proof.
  destruct r as [| | |ts]; try reflexivity.
  simpl. unfold _procesar_tabla_resultados. simpl.
  destruct (find es_tabla_resultados ts) as [t|]; [|reflexivity].
  destruct (filas_td t) as [filas|]; [|reflexivity].
  now rewrite (fold_left_filter tres_celdas
                 (fun acc celdas => _procesar_fila mapeo celdas (fst acc) (snd acc))).
Qed.

Lemma extraer_forma (mapeo : dict str str) (r : respuesta) (dc dt : registro) :
  _extraer_datos_comuna mapeo r = Some (dc, dt) ->
  exists t filas, _encontrar_tabla_resultados r = Some t
    /\ filas_td t = Some filas
    /\ (dc, dt) = fold_left (fun acc celdas =>
                               _procesar_fila mapeo celdas (fst acc) (snd acc))
                            (filter tres_celdas filas) ([], []).
Proof.
  rewrite extraer_casos.
  destruct (_encontrar_tabla_resultados r) as [t|]; [|discriminate].
  destruct (filas_td t) as [filas|] eqn:El; [|discriminate].
  intros E. exists t, filas. split; [reflexivity|]. split; [exact El|].
  injection E as E. symmetry. exact E.
Qed.

(** X3: whatever the page shows, the records of a leaf are well formed:
    no name occurs twice in either of them, the aggregates are named
    blanco, nulo or emitidos and are at most three, and no count is
    negative. *)
Theorem X3_registros_bien_formados (mapeo : dict str str) (r : respuesta)
    (dc dt : registro) :
  _extraer_datos_comuna mapeo r = Some (dc, dt) ->
  dict_ok dc /\ dict_ok dt
  /\ (forall k, In k (dict_keys dt) -> k = k_blanco \/ k = k_nulo \/ k = k_emitidos)
  /\ (List.length dt <= 3)%nat
  /\ (forall k m, In (k, m) (dc ++ dt) -> (0 <= votos m)%Z).
Proof.
  intros E. destruct (extraer_forma mapeo r dc dt E) as [t [filas [_ [_ F]]]].
  destruct (filas_sanas mapeo (filter tres_celdas filas) ([], []))
    as [[O1 [O2 [Hk Hv]]] _]; [exact registros_sanos_vacios|].
  rewrite <- F in *. simpl in *.
  repeat split; try assumption.
  - intros k I. specialize (Hk k I). simpl in Hk. intuition.
  - unfold dict_keys in *. rewrite <- (length_map fst dt).
    apply (NoDup_incl_length O2 (l' := nombres_de_totales)). exact Hk.
Qed.

Lemma X3_registros_bien_formados_witness :
  dict_ok [(k_blanco, medida_cero); (k_emitidos, medida_cero)]
  /\ (List.length [(k_blanco, medida_cero); (k_emitidos, medida_cero)] <= 3)%nat.
Proof.
  destruct (X3_registros_bien_formados []
              (Tablas [{| is_displayed := true; text := txt "votos";
                          filas_td := Some [[txt "Blancos"; txt "x"; txt ""];
                                            [txt "Total"; txt ""; txt "-"]] |}])
              [] [(k_blanco, medida_cero); (k_emitidos, medida_cero)] eq_refl)
    as [_ [H2 [_ [H4 _]]]].
  split; [exact H2|exact H4].
Defined.

(** X4: once the results table is located, the extraction fails only when
    reading its rows or cells raises.  When they are read, it returns two
    records that hold at most one entry for each row of three cells or
    more; a table without any such row gives two empty records, not a
    failure. *)
Theorem X4_entradas_por_fila (mapeo : dict str str) (r : respuesta) (t : tabla) :
  _encontrar_tabla_resultados r = Some t ->
  (filas_td t = None <-> _extraer_datos_comuna mapeo r = None)
  /\ (forall filas, filas_td t = Some filas ->
        exists dc dt,
          _extraer_datos_comuna mapeo r = Some (dc, dt)
          /\ (List.length dc + List.length dt
              <= List.length (filter tres_celdas filas))%nat
          /\ (filter tres_celdas filas = [] -> dc = [] /\ dt = [])).
Proof.
  intros Ht. rewrite extraer_casos, Ht. split.
  - destruct (filas_td t); split; congruence.
  - intros filas ->.
    destruct (filas_sanas mapeo (filter tres_celdas filas) ([], []))
      as [_ B]; [exact registros_sanos_vacios|].
    set (fin := fold_left
                  (fun acc celdas => _procesar_fila mapeo celdas (fst acc) (snd acc))
                  (filter tres_celdas filas) ([], [])) in *.
    exists (fst fin), (snd fin). split; [now destruct fin|]. split.
    + simpl in B. lia.
    + intros Hn. unfold fin. rewrite Hn. simpl. auto.
Qed.

Lemma X4_entradas_por_fila_witness :
  (exists dc dt,
     _extraer_datos_comuna [] (Tablas [tabla_escenario]) = Some (dc, dt)
     /\ (List.length dc + List.length dt <= 3)%nat)
  /\ _extraer_datos_comuna []
       (Tablas [{| is_displayed := true; text := txt "Votos"; filas_td := None |}])
     = None.
Proof.
  split.
  - destruct (X4_entradas_por_fila [] (Tablas [tabla_escenario]) tabla_escenario eq_refl)
      as [_ H].
    destruct (H filas_escenario eq_refl) as [dc [dt [E [B _]]]].
    exists dc, dt. split; [exact E|exact B].
  - exact (proj1 (proj1 (X4_entradas_por_fila []
             (Tablas [{| is_displayed := true; text := txt "Votos"; filas_td := None |}])
             {| is_displayed := true; text := txt "Votos"; filas_td := None |} eq_refl))
             eq_refl).
Defined.

(** ** Locating the results table *)

Lemma find_primero {A : Type} (p : A -> bool) (l : list A) (x : A) :
  find p l = Some x ->
  exists antes despues,
    l = antes ++ x :: despues /\ p x = true
    /\ Forall (fun y => p y = false) antes.
Proof.
  induction l as [|y l IH]; simpl; [discriminate|].
  destruct (p y) eqn:E.
  - intros [= ->]. exists [], l. auto.
  - intros H. destruct (IH H) as [a [d [-> [Hp F]]]].
    exists (y :: a), d. auto.
Qed.

Lemma find_ninguno {A : Type} (p : A -> bool) (l : list A) :
  find p l = None <-> Forall (fun y => p y = false) l.
Proof.
  induction l as [|y l IH]; simpl.
  - split; [constructor|reflexivity].
  - destruct (p y) eqn:E.
    + split; [discriminate|]. intros F. inversion F. congruence.
    + rewrite IH. split; [now constructor|]. intros F. now inversion F.
Qed.

Lemma find_tras_prefijo {A : Type} (p : A -> bool) (antes despues : list A) (x : A) :
  Forall (fun y => p y = false) antes -> p x = true ->
  find p (antes ++ x :: despues) = Some x.
Proof.
  intros F Hx. induction F as [|y l Hy F IH]; simpl.
  - now rewrite Hx.
  - now rewrite Hy.
Qed.

Lemma no_es_tabla_resultados (t : tabla) :
  es_tabla_resultados t = false
  <-> is_displayed t = false
      \/ Forall (fun m => contiene (upper (text t)) m = false) marcadores.
Proof.
  unfold es_tabla_resultados. rewrite andb_false_iff. split.
  - intros [H|H]; [now left|right]. apply Forall_forall. intros m I.
    destruct (contiene (upper (text t)) m) eqn:E; [|reflexivity].
    assert (existsb (contiene (upper (text t))) marcadores = true) as T
      by (apply existsb_exists; eauto).
    congruence.
  - intros [H|H]; [now left|right].
    destruct (existsb (contiene (upper (text t))) marcadores) eqn:E; [|reflexivity].
    apply existsb_exists in E as [m [I C]]. rewrite Forall_forall in H.
    rewrite (H m I) in C. discriminate.
Qed.

(** X5: the extraction of a leaf returns nothing in these cases and in no
    other: driving the selector raises; the wait for a table times out;
    the session raises while the tables are listed or tested; no rendered
    table is both displayed and marked by one of the words CANDIDATO,
    VOTOS, PORCENTAJE, PARTIDO, BLANCO, NULO, EMITIDO (in any letter
    case); or reading the rows of the first such table raises.  The
    contents of rows that are read never make it fail.  The table read
    is the first displayed and marked one: hidden or unmarked tables
    before it are passed over. *)
Theorem X5_fallo_de_extraccion (mapeo : dict str str) (r : respuesta) :
  (_extraer_datos_comuna mapeo r = None
   <-> r = ErrorSeleccion \/ r = SinTabla \/ r = ErrorSesion
       \/ exists ts, r = Tablas ts
            /\ (Forall (fun t => is_displayed t = false
                                 \/ Forall (fun m => contiene (upper (text t)) m = false)
                                           marcadores) ts
                \/ exists antes t despues,
                     ts = antes ++ t :: despues
                     /\ Forall (fun t' => es_tabla_resultados t' = false) antes
                     /\ es_tabla_resultados t = true
                     /\ filas_td t = None))
  /\ (forall t, _encontrar_tabla_resultados r = Some t ->
        exists ts antes despues,
          r = Tablas ts
          /\ ts = antes ++ t :: despues
          /\ Forall (fun t' => es_tabla_resultados t' = false) antes
          /\ is_displayed t = true
          /\ Exists (fun m => contiene (upper (text t)) m = true) marcadores).
Proof.
  split.
  - rewrite extraer_casos.
    destruct r as [| | |ts]; simpl;
      try (split; [intros _; auto|reflexivity]).
    destruct (find es_tabla_resultados ts) as [t|] eqn:Ef.
    + destruct (find_primero _ _ _ Ef) as [a [d [E [Hp F]]]].
      destruct (filas_td t) as [filas|] eqn:El.
      * split; [discriminate|].
        intros [H|[H|[H|[ts' [[= <-] [H|[a' [t' [d' [E' [F' [Hp' El']]]]]]]]]]]];
          try discriminate; exfalso.
        -- rewrite Forall_forall in H.
           assert (In t ts) as I by (rewrite E; apply in_or_app; right; now left).
           apply (proj2 (no_es_tabla_resultados t)) in H; [congruence|exact I].
        -- rewrite E', (find_tras_prefijo _ _ _ _ F' Hp') in Ef. congruence.
      * split; [|reflexivity]. intros _. do 3 right. exists ts.
        split; [reflexivity|]. right. exists a, t, d. auto.
    + split; [|reflexivity]. intros _. do 3 right. exists ts.
      split; [reflexivity|]. left.
      apply find_ninguno in Ef. rewrite Forall_forall in *.
      intros t I. apply no_es_tabla_resultados. auto.
  - intros t H. destruct r as [| | |ts]; simpl in H; try discriminate.
    apply find_primero in H as [a [d [E [Hp F]]]].
    exists ts, a, d. unfold es_tabla_resultados in Hp.
    apply andb_true_iff in Hp as [Hd Hm].
    repeat split; try assumption.
    apply Exists_exists. apply existsb_exists in Hm. exact Hm.
Qed.

Lemma X5_fallo_de_extraccion_witness :
  exists antes despues,
    [{| is_displayed := false; text := txt "Votos"; filas_td := Some [] |};
     {| is_displayed := true; text := txt "Mesas"; filas_td := Some [] |};
     tabla_escenario]
    = antes ++ tabla_escenario :: despues
    /\ Forall (fun t' => es_tabla_resultados t' = false) antes.
Proof.
  destruct (proj2 (X5_fallo_de_extraccion []
             (Tablas
                [{| is_displayed := false; text := txt "Votos"; filas_td := Some [] |};
                 {| is_displayed := true; text := txt "Mesas"; filas_td := Some [] |};
                 tabla_escenario])) tabla_escenario eq_refl)
    as [ts [a [d [Er [E [F _]]]]]].
  injection Er as <-.
  exists a, d. split; assumption.
Defined.

(** ** Shape of the matrix *)

(** X6: the matrix is rectangular: it has one row for each item of the
    store, two columns of identity and two columns for each name of the
    schema, and every row has exactly one cell for each column. *)
Theorem X6_matriz_rectangular (d : almacen) :
  let df := _crear_dataframe_final d in
  List.length (filas df) = List.length d
  /\ List.length (columnas df)
     = (2 + 2 * (List.length (todos_nombres candidatos d)
                 + List.length (todos_nombres totales d)))%nat
  /\ Forall (fun f => (2 + List.length (f_valores f))%nat = List.length (columnas df))
            (filas df).
Proof. exact (matriz_forma d). Qed.

(** ** Order of insertion *)

Lemma fila_lt_irrefl (a : fila) : ~ fila_lt a a.
Proof. intros H. exact (fila_lt_identidad a a H eq_refl). Qed.

Lemma todos_nombres_perm (campo : hoja -> registro) (d1 d2 : almacen) :
  Permutation d1 d2 -> todos_nombres campo d1 = todos_nombres campo d2.
Proof.
  intros P. apply (ordenada_unica str_lt).
  - apply str_lt_irrefl.
  - intros a b c. apply str_ltb_trans.
  - apply todos_nombres_estricta.
  - apply todos_nombres_estricta.
  - intros x. rewrite !todos_nombres_In. split; intros [kv [I J]]; exists kv;
      (split; [|assumption]).
    + exact (Permutation_in _ P I).
    + exact (Permutation_in _ (Permutation_sym P) I).
Qed.

(** X7: the matrix does not depend on the order in which the leaves were
    stored: two stores with the same items, in any order, give the same
    columns and the same rows in the same order. *)
Theorem X7_orden_de_insercion (d1 d2 : almacen) :
  dict_ok d1 -> Permutation d1 d2 ->
  _crear_dataframe_final d1 = _crear_dataframe_final d2.
Proof.
  intros OK P.
  assert (dict_ok d2) as OK2.
  { unfold dict_ok, dict_keys in *.
    exact (Permutation_NoDup (Permutation_map fst P) OK). }
  pose proof (todos_nombres_perm candidatos d1 d2 P) as Ec.
  pose proof (todos_nombres_perm totales d1 d2 P) as Et.
  assert (filas (_crear_dataframe_final d1) = filas (_crear_dataframe_final d2)) as Ef.
  { apply (ordenada_unica fila_lt).
    - apply fila_lt_irrefl.
    - apply fila_lt_trans.
    - now apply filas_ordenadas.
    - now apply filas_ordenadas.
    - intros f. rewrite !filas_In, Ec, Et. split; intros [kv [I E]]; exists kv;
        (split; [|assumption]).
      + exact (Permutation_in _ P I).
      + exact (Permutation_in _ (Permutation_sym P) I). }
  unfold _crear_dataframe_final in *. simpl in Ef. rewrite Ef, Ec, Et. reflexivity.
Qed.

Lemma X7_orden_de_insercion_witness :
  _crear_dataframe_final almacen_ejemplo
  = _crear_dataframe_final (rev almacen_ejemplo).
Proof.
  apply X7_orden_de_insercion.
  - unfold dict_ok. vm_compute. repeat constructor; simpl; intuition discriminate.
  - apply Permutation_rev.
Defined.

(** ** Induction along a walk *)

Section InduccionRecorrido.
Variable web : sitio.
Variable max_comunas : option Z.
Variable mapeo : dict str str.
Variable P : scraper -> Prop.
Hypothesis P_hoja :
  forall s comuna region,
    P s -> P (_procesar_comuna_individual web mapeo s comuna region).
Hypothesis P_aviso : forall s, P s -> P (anotar LimiteAlcanzado s).
Hypothesis P_region : forall s r, P s -> P (seleccionar_region r s).

Lemma recorrido_comunas (comunas : list str) (region : str) (s : scraper) :
  P s -> P (bucle_comunas web max_comunas mapeo s region comunas).
Proof.
  revert s. induction comunas as [|c l IH]; intros s H; simpl; [assumption|].
  destruct (limite_alcanzado max_comunas s); auto.
Qed.

Lemma recorrido_region (region : str) (s : scraper) :
  P s -> P (_procesar_region web max_comunas mapeo s region).
Proof.
  intros H. unfold _procesar_region, _obtener_comunas_region.
  destruct (opciones_comuna web region) as [l|]; [|assumption].
  destruct (opciones_validas l) as [|c l']; [now apply P_region|].
  apply recorrido_comunas. now apply P_region.
Qed.

Lemma recorrido_regiones (regiones : list str) (s : scraper) :
  P s -> P (bucle_regiones web max_comunas mapeo s regiones).
Proof.
  revert s. induction regiones as [|r l IH]; intros s H; simpl; [assumption|].
  destruct (limite_alcanzado max_comunas s); [assumption|].
  apply IH. now apply recorrido_region.
Qed.

Lemma recorrido_ejecutar (s : scraper) :
  P s -> P (fst (ejecutar_extraccion web max_comunas mapeo s)).
Proof.
  intros H. unfold ejecutar_extraccion.
  destruct (navegador_disponible web); simpl; [|assumption].
  destruct (pagina_carga web); simpl; [|assumption].
  destruct (filtro_activable web); simpl; [|assumption].
  destruct (_obtener_regiones web) as [|r l]; simpl; [assumption|].
  now apply (recorrido_regiones (r :: l)).
Qed.
End InduccionRecorrido.

(** ** Edge values of the cap *)

Section LimitesIguales.
Variable web : sitio.
Variable mapeo : dict str str.
Variables m1 m2 : option Z.
Hypothesis mismo_limite : limite m1 = limite m2.

Lemma limite_alcanzado_igual (s : scraper) :
  limite_alcanzado m1 s = limite_alcanzado m2 s.
Proof. unfold limite_alcanzado. now rewrite mismo_limite. Qed.

Lemma bucle_comunas_igual (comunas : list str) (region : str) (s : scraper) :
  bucle_comunas web m1 mapeo s region comunas
  = bucle_comunas web m2 mapeo s region comunas.
Proof.
  revert s. induction comunas as [|c l IH]; intros s; simpl; [reflexivity|].
  rewrite limite_alcanzado_igual. destruct (limite_alcanzado m2 s); auto.
Qed.

Lemma procesar_region_igual (region : str) (s : scraper) :
  _procesar_region web m1 mapeo s region = _procesar_region web m2 mapeo s region.
Proof.
  unfold _procesar_region. destruct (_obtener_comunas_region web s region) as [s' l].
  rewrite mismo_limite. destruct l; [reflexivity|]. apply bucle_comunas_igual.
Qed.

Lemma bucle_regiones_igual (regiones : list str) (s : scraper) :
  bucle_regiones web m1 mapeo s regiones = bucle_regiones web m2 mapeo s regiones.
Proof.
  revert s. induction regiones as [|r l IH]; intros s; simpl; [reflexivity|].
  rewrite limite_alcanzado_igual, procesar_region_igual.
  destruct (limite_alcanzado m2 s); auto.
Qed.
End LimitesIguales.

(** X8: a cap of zero is no cap: the run with [max_comunas = 0] is, step
    by step, the run with [max_comunas = None]. *)
Theorem X8_limite_cero (web : sitio) (mapeo : dict str str) (s : scraper) :
  ejecutar_extraccion web (Some 0%Z) mapeo s = ejecutar_extraccion web None mapeo s.
Proof.
  unfold ejecutar_extraccion.
  destruct (navegador_disponible web); simpl; [|reflexivity].
  destruct (pagina_carga web); simpl; [|reflexivity].
  destruct (filtro_activable web); simpl; [|reflexivity].
  destruct (_obtener_regiones web) as [|r l]; [reflexivity|].
  rewrite (bucle_regiones_igual web mapeo (Some 0%Z) None eq_refl). reflexivity.
Qed.

(** X9: under a negative cap the walk stops before the first region: no
    leaf is attempted, nothing is stored and neither counter moves; when
    the set-up succeeds the run still returns a matrix, which has no
    row. *)
Theorem X9_limite_negativo (web : sitio) (mapeo : dict str str) (n : Z) :
  (n < 0)%Z ->
  let salida := ejecutar_extraccion web (Some n) mapeo scraper_inicial in
  fst salida = scraper_inicial
  /\ (abortada (snd salida) = false ->
      snd salida = Retorno (_crear_dataframe_final [])
      /\ filas (_crear_dataframe_final []) = []).
Proof.
  intros Hn salida.
  assert (limite_alcanzado (Some n) scraper_inicial = true) as H.
  { unfold limite_alcanzado, limite.
    destruct (Z.eqb_spec n 0); [lia|]. simpl.
    destruct (Z.leb_spec n 0); [reflexivity|lia]. }
  unfold salida, ejecutar_extraccion.
  destruct (navegador_disponible web); simpl; [|split; [reflexivity|discriminate]].
  destruct (pagina_carga web); simpl; [|split; [reflexivity|discriminate]].
  destruct (filtro_activable web); simpl; [|split; [reflexivity|discriminate]].
  destruct (_obtener_regiones web) as [|r l]; [split; [reflexivity|discriminate]|].
  simpl. rewrite H. simpl. repeat split.
Qed.

Lemma X9_limite_negativo_witness :
  fst (ejecutar_extraccion (sitio_dos_regiones (Tablas [tabla_escenario]))
         (Some (-1)%Z) [] scraper_inicial)
  = scraper_inicial.
Proof.
  apply (X9_limite_negativo (sitio_dos_regiones (Tablas [tabla_escenario])) [] (-1)).
  reflexivity.
Defined.

(** ** Attempts of a walk *)

Section Intentos.
Variable web : sitio.
Variable max_comunas : option Z.
Variable mapeo : dict str str.

Lemma bitacora_hoja (s : scraper) (comuna region : str) :
  exists e,
    es_intento e = false
    /\ bitacora (_procesar_comuna_individual web mapeo s comuna region)
       = bitacora s ++ [Procesando (normalizar_nombre_comuna comuna) region; e].
Proof.
  destruct (_extraer_datos_comuna mapeo (pagina_comuna web (region_activa s) comuna))
    as [[[|x dc] dt]|] eqn:E.
  - rewrite procesar_comuna_fallo by (now rewrite E). simpl.
    eexists. split; [|reflexivity]. reflexivity.
  - destruct (procesar_comuna_exito web mapeo s comuna region (x :: dc) dt E)
      as [_ [_ [_ [_ P5]]]]; [discriminate|]. rewrite P5.
    eexists. split; [|reflexivity]. reflexivity.
  - rewrite procesar_comuna_fallo by (now rewrite E). simpl.
    eexists. split; [|reflexivity]. reflexivity.
Qed.

Lemma intentos_hoja (s : scraper) (comuna region : str) :
  filter es_intento
         (bitacora (_procesar_comuna_individual web mapeo s comuna region))
  = filter es_intento (bitacora s)
    ++ [Procesando (normalizar_nombre_comuna comuna) region].
Proof.
  destruct (bitacora_hoja s comuna region) as [e [He ->]].
  rewrite filter_app. simpl. now rewrite He.
Qed.

Lemma intentos_comunas_cota (comunas : list str) (region : str) (s : scraper) :
  (intentos (bitacora (bucle_comunas web max_comunas mapeo s region comunas))
   <= intentos (bitacora s) + List.length comunas)%nat.
Proof.
  revert s. induction comunas as [|c l IH]; intros s; simpl; [lia|].
  destruct (limite_alcanzado max_comunas s).
  - unfold intentos, anotar. simpl. rewrite contar_app. simpl. lia.
  - specialize (IH (_procesar_comuna_individual web mapeo s c region)).
    unfold intentos in *. rewrite intentos_hoja, length_app in IH. simpl in IH. lia.
Qed.

(** Without cap every leaf of the list is attempted, in order. *)
Lemma intentos_comunas_sin_limite (comunas : list str) (region : str) (s : scraper) :
  limite max_comunas = None ->
  filter es_intento (bitacora (bucle_comunas web max_comunas mapeo s region comunas))
  = filter es_intento (bitacora s)
    ++ map (fun c => Procesando (normalizar_nombre_comuna c) region) comunas.
Proof.
  intros L. revert s. induction comunas as [|c l IH]; intros s; simpl.
  - now rewrite app_nil_r.
  - unfold limite_alcanzado. rewrite L. rewrite IH, intentos_hoja.
    now rewrite <- app_assoc.
Qed.

Lemma intentos_region_sin_limite (region : str) (s : scraper) :
  limite max_comunas = None ->
  filter es_intento (bitacora (_procesar_region web max_comunas mapeo s region))
  = filter es_intento (bitacora s) ++ intentos_de_region web region.
Proof.
  intros L. unfold _procesar_region, _obtener_comunas_region, intentos_de_region.
  destruct (opciones_comuna web region) as [l|]; [|now rewrite app_nil_r].
  destruct (opciones_validas l) as [|c l'] eqn:E; [simpl; now rewrite app_nil_r|].
  rewrite L. now rewrite intentos_comunas_sin_limite.
Qed.

Lemma intentos_regiones_sin_limite (regiones : list str) (s : scraper) :
  limite max_comunas = None ->
  filter es_intento (bitacora (bucle_regiones web max_comunas mapeo s regiones))
  = filter es_intento (bitacora s) ++ flat_map (intentos_de_region web) regiones.
Proof.
  intros L. revert s. induction regiones as [|r l IH]; intros s; simpl.
  - now rewrite app_nil_r.
  - unfold limite_alcanzado. rewrite L.
    rewrite IH, intentos_region_sin_limite by assumption.
    now rewrite app_assoc.
Qed.
End Intentos.

Lemma recortar_length (n : Z) (l : list str) :
  (0 <= n)%Z -> (Z.of_nat (List.length (recortar n l)) <= n)%Z.
Proof.
  intros H. unfold recortar. destruct (Z.leb_spec 0 n); [|lia].
  rewrite length_firstn. lia.
Qed.

(** X10: under a cap [n > 0] at most [n] leaves of a region are attempted,
    whether they succeed or not, so that a whole run makes at most [n]
    attempts for each listed region. *)
Theorem X10_intentos_por_region (web : sitio) (mapeo : dict str str) (n : Z) :
  (0 < n)%Z ->
  (forall s region,
      (Z.of_nat (intentos (bitacora (_procesar_region web (Some n) mapeo s region)))
       <= Z.of_nat (intentos (bitacora s)) + n)%Z)
  /\ (Z.of_nat (intentos (bitacora
                   (fst (ejecutar_extraccion web (Some n) mapeo scraper_inicial))))
      <= n * Z.of_nat (List.length (_obtener_regiones web)))%Z.
Proof.
  intros Hn.
  assert (forall s region,
      (Z.of_nat (intentos (bitacora (_procesar_region web (Some n) mapeo s region)))
       <= Z.of_nat (intentos (bitacora s)) + n)%Z) as Hr.
  { intros s region. unfold _procesar_region, _obtener_comunas_region.
    destruct (opciones_comuna web region) as [l|]; [|lia].
    destruct (opciones_validas l) as [|c l'] eqn:E; [simpl; lia|].
    rewrite (limite_configurado n Hn).
    match goal with
    | |- context [bucle_comunas _ _ _ ?s0 ?rn ?cs] =>
      pose proof (intentos_comunas_cota web (Some n) mapeo cs rn s0) as B;
        assert (Z.of_nat (List.length cs) <= n)%Z as Hl
    end.
    { destruct (Z.ltb_spec n (Z.of_nat (List.length (c :: l')))).
      - apply recortar_length. lia.
      - assumption. }
    change (bitacora (seleccionar_region region s)) with (bitacora s) in B. lia. }
  split; [exact Hr|].
  assert (forall l s,
      (Z.of_nat (intentos (bitacora (bucle_regiones web (Some n) mapeo s l)))
       <= Z.of_nat (intentos (bitacora s)) + n * Z.of_nat (List.length l))%Z) as Hl.
  { induction l as [|r l IH]; intros s; simpl bucle_regiones.
    - simpl. lia.
    - destruct (limite_alcanzado (Some n) s).
      + simpl List.length. lia.
      + specialize (IH (_procesar_region web (Some n) mapeo s r)).
        specialize (Hr s r). simpl List.length. lia. }
  unfold ejecutar_extraccion.
  destruct (navegador_disponible web); simpl; [|lia].
  destruct (pagina_carga web); simpl; [|lia].
  destruct (filtro_activable web); simpl; [|lia].
  destruct (_obtener_regiones web) as [|r l] eqn:E; [simpl; lia|].
  specialize (Hl (r :: l) scraper_inicial). simpl in Hl. simpl. lia.
Qed.

Lemma X10_intentos_por_region_witness :
  (Z.of_nat (intentos (bitacora
               (fst (ejecutar_extraccion (sitio_dos_regiones SinTabla)
                       (Some 2%Z) [] scraper_inicial))))
   <= 2 * 2)%Z.
Proof.
  exact (proj2 (X10_intentos_por_region (sitio_dos_regiones SinTabla) [] 2 eq_refl)).
Defined.

(** X11: without cap ([max_comunas] is [None] or zero) a walk attempts
    every leaf that the site lists, once, region after region and in the
    order of each list, under its normalised names; a region whose leaves
    cannot be listed contributes no attempt. *)
Theorem X11_recorrido_completo (web : sitio) (max_comunas : option Z)
    (mapeo : dict str str) (regiones : list str) (s : scraper) :
  max_comunas = None \/ max_comunas = Some 0%Z ->
  filter es_intento (bitacora (bucle_regiones web max_comunas mapeo s regiones))
  = filter es_intento (bitacora s) ++ flat_map (intentos_de_region web) regiones.
Proof.
  intros H. apply intentos_regiones_sin_limite.
  destruct H as [-> | ->]; reflexivity.
Qed.

Lemma X11_recorrido_completo_witness :
  List.length
    (filter es_intento
       (bitacora (bucle_regiones (sitio_dos_regiones SinTabla) None []
                    scraper_inicial [txt "DEL MAULE"; txt "DE ATACAMA"])))
  = 7%nat.
Proof.
  rewrite (X11_recorrido_completo (sitio_dos_regiones SinTabla) None []
             [txt "DEL MAULE"; txt "DE ATACAMA"] scraper_inicial (or_introl eq_refl)).
  reflexivity.
Defined.

(** ** Counters, snapshots and growth *)

Lemma dict_set_no_vacio {K V : Type} `{Clave K} (k : K) (v : V) (d : dict K V) :
  dict_set k v d <> [].
Proof. destruct d as [|[k' v'] d]; simpl; [|destruct (clave_eqb k k')]; discriminate. Qed.

Lemma dict_set_tamano {K V : Type} `{Clave K} (k : K) (v : V) (d : dict K V) :
  (List.length (dict_set k v d) <= S (List.length d))%nat.
Proof.
  induction d as [|[k0 v0] d IH]; simpl; [lia|].
  destruct (clave_eqb k k0); simpl; lia.
Qed.

Lemma dict_keys_set_incl {V : Type} (k : str * str) (v : V) (d : dict (str * str) V) :
  incl (dict_keys d) (dict_keys (dict_set k v d)).
Proof.
  destruct (dict_get k d) eqn:G.
  - rewrite dict_set_presente by congruence. apply incl_refl.
  - rewrite dict_set_nuevo by assumption. unfold dict_keys. rewrite map_app.
    apply incl_appl, incl_refl.
Qed.

Section Progreso.
Variable web : sitio.
Variable mapeo : dict str str.

(** Snapshots after a leaf that yields candidates. *)
Lemma procesar_comuna_progreso (s : scraper) (comuna region : str)
    (dc dt : registro) :
  _extraer_datos_comuna mapeo (pagina_comuna web (region_activa s) comuna)
  = Some (dc, dt) ->
  dc <> [] ->
  let s' := _procesar_comuna_individual web mapeo s comuna region in
  progreso_parcial s'
  = if ((comunas_procesadas s + 1) mod 10 =? 0)%Z
       && progreso_escribible web (comunas_procesadas s + 1)
    then progreso_parcial s
         ++ [((comunas_procesadas s + 1)%Z, _crear_dataframe_final (datos_completos s'))]
    else progreso_parcial s.
Proof.
  intros E N.
  pose proof (procesar_comuna_exito web mapeo s comuna region dc dt E N) as [P1 _].
  cbv zeta in *. rewrite P1. clear P1.
  unfold _procesar_comuna_individual. simpl. rewrite E.
  destruct dc as [|x dc]; [congruence|]. simpl.
  destruct ((comunas_procesadas s + 1) mod 10 =? 0)%Z; [|reflexivity].
  unfold _guardar_progreso_parcial. simpl.
  match goal with
  | |- context [dict_set ?k ?v ?d] =>
    pose proof (dict_set_no_vacio k v d) as Hd; destruct (dict_set k v d) eqn:Ed
  end; [congruence|].
  destruct (progreso_escribible web (comunas_procesadas s + 1)); reflexivity.
Qed.

Lemma continua_refl (s : scraper) : continua s s.
Proof.
  unfold continua. repeat split; try lia; try apply incl_refl;
    exists []; now rewrite app_nil_r.
Qed.

Lemma continua_trans (a b c : scraper) : continua a b -> continua b c -> continua a c.
Proof.
  intros [A1 [A2 [A3 [[la A4] [pa A5]]]]] [B1 [B2 [B3 [[lb B4] [pb B5]]]]].
  unfold continua. repeat split; try lia.
  - eapply incl_tran; eassumption.
  - exists (la ++ lb). now rewrite B4, A4, app_assoc.
  - exists (pa ++ pb). now rewrite B5, A5, app_assoc.
Qed.

Lemma continua_hoja (s : scraper) (comuna region : str) :
  continua s (_procesar_comuna_individual web mapeo s comuna region).
Proof.
  destruct (_extraer_datos_comuna mapeo (pagina_comuna web (region_activa s) comuna))
    as [[[|x dc] dt]|] eqn:E.
  - rewrite procesar_comuna_fallo by (now rewrite E). unfold continua. simpl.
    repeat split; try lia; try apply incl_refl; eexists; try reflexivity.
    now rewrite app_nil_r.
  - assert (x :: dc <> []) as N by discriminate.
    pose proof (procesar_comuna_progreso s comuna region (x :: dc) dt E N) as Pp.
    destruct (procesar_comuna_exito web mapeo s comuna region (x :: dc) dt E N)
      as [P1 [P2 [P3 [_ P5]]]].
    cbv zeta in Pp. unfold continua. rewrite P1 at 1. rewrite P2, P3, P5, Pp.
    repeat split; try lia.
    + apply dict_keys_set_incl.
    + eexists. reflexivity.
    + destruct (_ && _); eexists; [reflexivity|]. now rewrite app_nil_r.
  - rewrite procesar_comuna_fallo by (now rewrite E). unfold continua. simpl.
    repeat split; try lia; try apply incl_refl; eexists; try reflexivity.
    now rewrite app_nil_r.
Qed.

Lemma cuentas_hoja (s : scraper) (comuna region : str) :
  cuentas_al_dia s ->
  cuentas_al_dia (_procesar_comuna_individual web mapeo s comuna region).
Proof.
  intros [H1 [H2 [H3 H4]]].
  destruct (_extraer_datos_comuna mapeo (pagina_comuna web (region_activa s) comuna))
    as [[[|x dc] dt]|] eqn:E.
  - rewrite procesar_comuna_fallo by (now rewrite E).
    unfold cuentas_al_dia, intentos, exitos, fallos in *. simpl.
    rewrite !contar_app. simpl. repeat split; lia.
  - destruct (procesar_comuna_exito web mapeo s comuna region (x :: dc) dt E)
      as [P1 [P2 [P3 [_ P5]]]]; [discriminate|].
    unfold cuentas_al_dia, intentos, exitos, fallos in *.
    rewrite P1, P2, P3, P5, !contar_app. simpl.
    match goal with
    | |- context [dict_set ?k ?v ?d] => pose proof (dict_set_tamano k v d)
    end.
    repeat split; lia.
  - rewrite procesar_comuna_fallo by (now rewrite E).
    unfold cuentas_al_dia, intentos, exitos, fallos in *. simpl.
    rewrite !contar_app. simpl. repeat split; lia.
Qed.

Lemma decenas_siguiente (m : nat) :
  decenas (S m) = decenas m ++ [(10 * Z.of_nat (S m))%Z].
Proof. unfold decenas. rewrite seq_S, map_app. reflexivity. Qed.

Lemma progreso_hoja (s : scraper) (comuna region : str) :
  progreso_al_dia web s ->
  progreso_al_dia web (_procesar_comuna_individual web mapeo s comuna region).
Proof.
  intros [H0 H1].
  destruct (_extraer_datos_comuna mapeo (pagina_comuna web (region_activa s) comuna))
    as [[[|x dc] dt]|] eqn:E.
  - rewrite procesar_comuna_fallo by (now rewrite E). split; assumption.
  - assert (x :: dc <> []) as N by discriminate.
    pose proof (procesar_comuna_progreso s comuna region (x :: dc) dt E N) as Pp.
    destruct (procesar_comuna_exito web mapeo s comuna region (x :: dc) dt E N)
      as [_ [P2 _]].
    cbv zeta in Pp. unfold progreso_al_dia. rewrite P2, Pp.
    split; [lia|].
    set (p := comunas_procesadas s) in *.
    destruct (Z.eqb_spec ((p + 1) mod 10) 0) as [M|M].
    + assert ((p + 1) / 10 = p / 10 + 1)%Z as D.
      { pose proof (Z.div_mod (p + 1) 10). pose proof (Z.div_mod p 10).
        pose proof (Z.mod_pos_bound p 10). lia. }
      rewrite D, Z2Nat.inj_add by (try lia; apply Z.div_pos; lia).
      change (Z.to_nat 1) with 1%nat. rewrite Nat.add_1_r, decenas_siguiente.
      assert (10 * Z.of_nat (S (Z.to_nat (p / 10))) = p + 1)%Z as ->.
      { rewrite Nat2Z.inj_succ, Z2Nat.id by (apply Z.div_pos; lia).
        pose proof (Z.div_mod (p + 1) 10). lia. }
      rewrite filter_app. cbn [filter andb].
      destruct (progreso_escribible web (p + 1)).
      * rewrite map_app, H1. reflexivity.
      * now rewrite app_nil_r.
    + assert ((p + 1) / 10 = p / 10)%Z as D.
      { pose proof (Z.div_mod (p + 1) 10). pose proof (Z.div_mod p 10).
        pose proof (Z.mod_pos_bound p 10). pose proof (Z.mod_pos_bound (p + 1) 10).
        lia. }
      now rewrite D.
  - rewrite procesar_comuna_fallo by (now rewrite E). split; assumption.
Qed.
End Progreso.

(** X12: in a run from the initial state a snapshot of the matrix is
    attempted after every tenth extracted leaf and at no other moment.
    The snapshots left on disk carry, in order, those of the counts 10,
    20, ... up to the last multiple of ten reached by the success counter
    whose file could be written: there are at most a tenth as many as
    extracted leaves, exactly that many when every write succeeds, and
    none when every write fails. *)
Theorem X12_cadencia_de_progreso (web : sitio) (max_comunas : option Z)
    (mapeo : dict str str) :
  let s := fst (ejecutar_extraccion web max_comunas mapeo scraper_inicial) in
  map fst (progreso_parcial s)
  = filter (progreso_escribible web)
           (decenas (Z.to_nat (comunas_procesadas s / 10)))
  /\ (Z.of_nat (List.length (progreso_parcial s)) <= comunas_procesadas s / 10)%Z
  /\ ((forall n, progreso_escribible web n = true) ->
      Z.of_nat (List.length (progreso_parcial s)) = (comunas_procesadas s / 10)%Z)
  /\ ((forall n, progreso_escribible web n = false) -> progreso_parcial s = []).
Proof.
  intros s.
  assert (progreso_al_dia web s) as [H0 H1].
  { apply (recorrido_ejecutar web max_comunas mapeo (progreso_al_dia web)).
    - intros s0 c r. apply progreso_hoja.
    - intros s0 H. exact H.
    - intros s0 r H. exact H.
    - split; [simpl; lia|reflexivity]. }
  assert (Z.of_nat (List.length (decenas (Z.to_nat (comunas_procesadas s / 10))))
          = (comunas_procesadas s / 10)%Z) as L.
  { unfold decenas. rewrite length_map, length_seq, Z2Nat.id; [reflexivity|].
    apply Z.div_pos; lia. }
  split; [exact H1|].
  set (ds := decenas (Z.to_nat (comunas_procesadas s / 10))) in *.
  split; [|split].
  - rewrite <- (length_map fst), H1, <- L. apply inj_le, filter_length_le.
  - intros T. rewrite <- (length_map fst), H1, <- L. f_equal. f_equal.
    apply forallb_filter_id. apply forallb_forall. intros n _. apply T.
  - intros T. apply (map_eq_nil fst). rewrite H1.
    clear L H1. induction ds as [|n l IH]; simpl; [reflexivity|].
    now rewrite T.
Qed.

Lemma X12_cadencia_de_progreso_witness :
  Z.of_nat (List.length
              (progreso_parcial
                 (fst (ejecutar_extraccion (sitio_veinticinco (fun _ => true)) None []
                         scraper_inicial)))) = 2%Z
  /\ map fst (progreso_parcial
                (fst (ejecutar_extraccion
                        (sitio_veinticinco (fun n => negb (n =? 10)%Z)) None []
                        scraper_inicial))) = [20%Z].
Proof.
  split.
  - rewrite (proj1 (proj2 (proj2 (X12_cadencia_de_progreso
               (sitio_veinticinco (fun _ => true)) None []))) (fun _ => eq_refl)).
    vm_compute. reflexivity.
  - rewrite (proj1 (X12_cadencia_de_progreso
               (sitio_veinticinco (fun n => negb (n =? 10)%Z)) None [])).
    vm_compute. reflexivity.
Defined.

(** X13: in a run from the initial state, with or without cap, the two
    counters count the extractions and the errors of the log, every
    attempt is one or the other, and the matrix has at most as many rows
    as leaves were extracted (fewer when two leaves share their
    normalised names). *)
Theorem X13_contadores (web : sitio) (max_comunas : option Z)
    (mapeo : dict str str) :
  let s := fst (ejecutar_extraccion web max_comunas mapeo scraper_inicial) in
  Z.of_nat (exitos (bitacora s)) = comunas_procesadas s
  /\ Z.of_nat (fallos (bitacora s)) = comunas_con_error s
  /\ Z.of_nat (intentos (bitacora s))
     = (comunas_procesadas s + comunas_con_error s)%Z
  /\ (Z.of_nat (List.length (filas (_crear_dataframe_final (datos_completos s))))
      <= comunas_procesadas s)%Z.
Proof.
  intros s.
  assert (cuentas_al_dia s) as [H1 [H2 [H3 H4]]].
  { apply (recorrido_ejecutar web max_comunas mapeo cuentas_al_dia).
    - intros s0 c r. apply cuentas_hoja.
    - intros s0 [A1 [A2 [A3 A4]]].
      unfold cuentas_al_dia, anotar, intentos, exitos, fallos in *. simpl.
      rewrite !contar_app. simpl. repeat split; lia.
    - intros s0 r H. exact H.
    - unfold cuentas_al_dia. simpl. repeat split; lia. }
  repeat split; try assumption; try lia.
  rewrite (Permutation_length (filas_perm (datos_completos s))), length_map.
  exact H4.
Qed.

(** X14: a walk only adds: whatever the site answers, the counters never
    go down, no key leaves the store, and the log and the snapshots
    written before remain, as the beginning of the new ones. *)
Theorem X14_recorrido_creciente (web : sitio) (max_comunas : option Z)
    (mapeo : dict str str) (regiones : list str) (s : scraper) :
  let s' := bucle_regiones web max_comunas mapeo s regiones in
  (comunas_procesadas s <= comunas_procesadas s')%Z
  /\ (comunas_con_error s <= comunas_con_error s')%Z
  /\ incl (dict_keys (datos_completos s)) (dict_keys (datos_completos s'))
  /\ (exists l, bitacora s' = bitacora s ++ l)
  /\ (exists l, progreso_parcial s' = progreso_parcial s ++ l).
Proof.
  apply (recorrido_regiones web max_comunas mapeo (continua s)).
  - intros s0 c r H. eapply continua_trans; [exact H|apply continua_hoja].
  - intros s0 H. eapply continua_trans; [exact H|].
    unfold continua, anotar. simpl.
    repeat split; try lia; try apply incl_refl; eexists; try reflexivity.
    now rewrite app_nil_r.
  - intros s0 r H. eapply continua_trans; [exact H|].
    unfold continua, seleccionar_region. simpl.
    repeat split; try lia; try apply incl_refl; exists []; now rewrite app_nil_r.
  - apply continua_refl.
Qed.

Lemma regiones_tras_el_limite (web : sitio) (max_comunas : option Z)
    (mapeo : dict str str) (regiones : list str) (s : scraper) :
  limite_alcanzado max_comunas s = true ->
  bucle_regiones web max_comunas mapeo s regiones = s.
Proof. intros H. destruct regiones; simpl; [reflexivity|now rewrite H]. Qed.

(** X15: the walk over a list of regions can be cut anywhere: walking
    the first part and then, from the state reached, the rest gives the
    state of the walk over the whole list, the cap included. *)
Theorem X15_recorrido_por_partes (web : sitio) (max_comunas : option Z)
    (mapeo : dict str str) (primeras resto : list str) (s : scraper) :
  bucle_regiones web max_comunas mapeo s (primeras ++ resto)
  = bucle_regiones web max_comunas mapeo
      (bucle_regiones web max_comunas mapeo s primeras) resto.
Proof.
  revert s. induction primeras as [|r l IH]; intros s; simpl; [reflexivity|].
  destruct (limite_alcanzado max_comunas s) eqn:L.
  - symmetry. now apply regiones_tras_el_limite.
  - apply IH.
Qed.

(** ** Column names and their readers *)

Lemma startswith_app (a b : str) : startswith (a ++ b) a = true.
Proof. induction a as [|x a IH]; simpl; [reflexivity|]. now rewrite N.eqb_refl. Qed.

Lemma contiene_app (a b : str) : contiene (a ++ b) a = true.
Proof.
  destruct a as [|x a]; simpl; [now destruct b|].
  now rewrite N.eqb_refl, startswith_app.
Qed.

Lemma startswith_mas (a b w : str) :
  startswith a w = true -> startswith (a ++ b) w = true.
Proof.
  revert a. induction w as [|y w IH]; intros [|x a]; simpl; try congruence.
  intros H. apply andb_true_iff in H as [H1 H2]. rewrite H1. simpl. auto.
Qed.

Lemma contiene_mas (a b w : str) :
  contiene a w = true -> contiene (a ++ b) w = true.
Proof.
  induction a as [|x a IH]; intros H.
  - destruct w; [now destruct b|discriminate].
  - cbn [contiene] in H. apply orb_true_iff in H as [H|H].
    + change ((x :: a) ++ b) with (x :: (a ++ b)). cbn [contiene].
      change (x :: (a ++ b)) with ((x :: a) ++ b).
      now rewrite (startswith_mas _ b _ H).
    + change ((x :: a) ++ b) with (x :: (a ++ b)). cbn [contiene].
      rewrite (IH H). apply orb_true_r.
Qed.

Lemma endswith_votos (n : str) : endswith (n ++ sufijo_votos) sufijo_votos = true.
Proof. unfold endswith. rewrite rev_app_distr. apply startswith_app. Qed.

Lemma endswith_pct (n : str) : endswith (n ++ sufijo_pct) sufijo_votos = false.
Proof. unfold endswith. rewrite rev_app_distr. reflexivity. Qed.

Lemma columnas_con_votos (nombres : list str) :
  filter (fun c => endswith c sufijo_votos) (columnas_de nombres)
  = map (fun n => n ++ sufijo_votos) nombres.
Proof.
  unfold columnas_de. induction nombres as [|n l IH]; simpl; [reflexivity|].
  rewrite endswith_votos, endswith_pct, IH. reflexivity.
Qed.

Lemma columnas_df_con_votos (d : almacen) :
  filter (fun c => endswith c sufijo_votos) (columnas (_crear_dataframe_final d))
  = map (fun n => n ++ sufijo_votos)
        (todos_nombres candidatos d ++ todos_nombres totales d).
Proof.
  unfold _crear_dataframe_final. cbn [columnas].
  rewrite !filter_app, !columnas_con_votos, map_app. reflexivity.
Qed.

Lemma filter_y {A : Type} (p q : A -> bool) (l : list A) :
  filter (fun x => p x && q x) l = filter q (filter p l).
Proof.
  induction l as [|x l IH]; simpl; [reflexivity|].
  destruct (p x); simpl; [destruct (q x)|]; now rewrite IH.
Qed.

Lemma filter_particion {A : Type} (q : A -> bool) (l : list A) :
  (List.length (filter (fun x => negb (q x)) l) + List.length (filter q l))%nat
  = List.length l.
Proof.
  induction l as [|x l IH]; simpl; [reflexivity|].
  destruct (q x); simpl; lia.
Qed.

(** X16: the figures of the final summary add up: every name of the
    schema is counted once, either among the candidates or among the
    totals, the number of columns is two plus twice that count, and a
    name that contains blanco, nulo or emitidos, be it the name of a
    candidate, is counted among the totals. *)
Theorem X16_resumen_de_columnas (d : almacen) :
  let cols := columnas (_crear_dataframe_final d) in
  (List.length (columnas_candidatos cols) + List.length (columnas_totales cols))%nat
  = (List.length (todos_nombres candidatos d)
     + List.length (todos_nombres totales d))%nat
  /\ List.length cols
     = (2 + 2 * (List.length (columnas_candidatos cols)
                 + List.length (columnas_totales cols)))%nat
  /\ Forall (fun n => In (n ++ sufijo_votos) (columnas_totales cols))
            (filter (fun n => existsb (contiene n) nombres_de_totales)
                    (todos_nombres candidatos d ++ todos_nombres totales d)).
Proof.
  intros cols.
  assert ((List.length (columnas_candidatos cols)
           + List.length (columnas_totales cols))%nat
          = (List.length (todos_nombres candidatos d)
             + List.length (todos_nombres totales d))%nat) as E.
  { unfold columnas_candidatos, columnas_totales.
    rewrite (filter_y (fun c => endswith c sufijo_votos)
                      (fun c => negb (existsb (contiene c) nombres_de_totales))).
    rewrite (filter_y (fun c => endswith c sufijo_votos)
                      (fun c => existsb (contiene c) nombres_de_totales)).
    rewrite filter_particion. unfold cols.
    rewrite columnas_df_con_votos, length_map, length_app. reflexivity. }
  split; [exact E|]. split.
  - rewrite E. apply (proj1 (proj2 (matriz_forma d))).
  - apply Forall_forall. intros n I. apply filter_In in I as [I Hn].
    unfold columnas_totales. apply filter_In. split.
    + assert (In (n ++ sufijo_votos)
                 (filter (fun c => endswith c sufijo_votos) cols)) as J.
      { unfold cols. rewrite columnas_df_con_votos.
        exact (in_map (fun n => n ++ sufijo_votos) _ n I). }
      apply filter_In in J. tauto.
    + rewrite endswith_votos. cbn [andb]. apply existsb_exists.
      apply existsb_exists in Hn as [w [Iw Cw]].
      exists w. split; [assumption|now apply contiene_mas].
Qed.

(** The suffix cannot begin inside a name that does not contain it and
    end in the suffix appended to that name. *)
Lemma sufijo_sin_solape (n : str) :
  n <> [] -> contiene n sufijo_votos = false ->
  startswith (n ++ sufijo_votos) sufijo_votos = false.
Proof.
  intros Hn H.
  assert (startswith n sufijo_votos = false) as S
    by (destruct n; [congruence|]; cbn [contiene] in H;
        apply orb_false_iff in H; tauto).
  clear H.
  destruct n as [|x1 [|x2 [|x3 [|x4 [|x5 [|x6 r]]]]]]; [congruence| | | | | |];
    cbn in S |- *; rewrite ?andb_false_r; try reflexivity.
  exact S.
Qed.

Lemma quitar_sufijo (n : str) :
  contiene n sufijo_votos = false ->
  replace_str sufijo_votos [] (n ++ sufijo_votos) = n.
Proof.
  unfold replace_str. induction n as [|x n IH]; intros H; [reflexivity|].
  pose proof (sufijo_sin_solape (x :: n) ltac:(discriminate) H) as S.
  change ((x :: n) ++ sufijo_votos) with (x :: (n ++ sufijo_votos)) in *.
  cbn [replace_go]. rewrite S. f_equal. apply IH.
  cbn [contiene] in H. apply orb_false_iff in H. tauto.
Qed.

Lemma filter_todos {A : Type} (p : A -> bool) (l : list A) :
  Forall (fun x => p x = true) l -> filter p l = l.
Proof.
  induction l as [|x l IH]; intros F; simpl; [reflexivity|].
  inversion F as [|? ? Hx Hl]; subst. rewrite Hx. f_equal. auto.
Qed.

Lemma filter_ninguno {A : Type} (p : A -> bool) (l : list A) :
  Forall (fun x => p x = false) l -> filter p l = [].
Proof.
  induction l as [|x l IH]; intros F; simpl; [reflexivity|].
  inversion F as [|? ? Hx Hl]; subst. rewrite Hx. auto.
Qed.

(** X17: the column names written by the scraper are read back by the
    dashboard: when no name of the schema contains "_votos", the
    dashboard recovers from the columns the names of the schema, in
    order, less those it ignores (blanco, nulo, emitidos, total); so it
    finds exactly the candidates when the aggregates bear those names and
    no candidate does. *)
Theorem X17_candidatos_detectados (d : almacen) :
  Forall (fun n => contiene n sufijo_votos = false)
         (todos_nombres candidatos d ++ todos_nombres totales d) ->
  detect_candidates (columnas (_crear_dataframe_final d))
  = filter (fun n => negb (set_in n ignored))
           (todos_nombres candidatos d ++ todos_nombres totales d)
  /\ (Forall (fun n => set_in n ignored = false) (todos_nombres candidatos d) ->
      Forall (fun n => set_in n ignored = true) (todos_nombres totales d) ->
      detect_candidates (columnas (_crear_dataframe_final d))
      = todos_nombres candidatos d).
Proof.
  intros H.
  assert (detect_candidates (columnas (_crear_dataframe_final d))
          = filter (fun n => negb (set_in n ignored))
                   (todos_nombres candidatos d ++ todos_nombres totales d)) as E.
  { unfold detect_candidates. rewrite columnas_df_con_votos, map_map.
    f_equal. rewrite <- (map_id (_ ++ _)) at 2. apply map_ext_in.
    intros n I. rewrite Forall_forall in H. now apply quitar_sufijo, H. }
  split; [exact E|]. intros Hc Ht. rewrite E, filter_app.
  rewrite (filter_todos _ (todos_nombres candidatos d)),
          (filter_ninguno _ (todos_nombres totales d)).
  - apply app_nil_r.
  - eapply Forall_impl; [|exact Ht]. intros n Hn. cbv beta. now rewrite Hn.
  - eapply Forall_impl; [|exact Hc]. intros n Hn. cbv beta. now rewrite Hn.
Qed.

Lemma X17_candidatos_detectados_witness :
  detect_candidates (columnas (_crear_dataframe_final almacen_ejemplo))
  = [k_perez; txt "soto"].
Proof.
  destruct (X17_candidatos_detectados almacen_ejemplo) as [_ H].
  - vm_compute. repeat constructor.
  - rewrite H; [reflexivity| |]; vm_compute; repeat constructor.
Defined.

(** ** Letter case and blanks of a raw leaf label *)

Lemma lower_upper_cp (c : N) :
  caja_reversible c = true -> map lower_cp (upper_cp c) = [lower_cp c].
Proof.
  unfold caja_reversible, upper_cp. intros H. apply negb_true_iff in H.
  apply orb_false_iff in H as [H H3]. apply orb_false_iff in H as [H1 H2].
  rewrite H1, H2, H3.
  destruct (es_minuscula_par c) eqn:E; [|reflexivity].
  apply es_minuscula_par_spec in E. simpl. f_equal. unfold lower_cp.
  assert (es_mayuscula (c - 32) = true) as -> by (apply es_mayuscula_spec; lia).
  destruct (es_mayuscula c) eqn:M; [apply es_mayuscula_spec in M|]; lia.
Qed.

Lemma lower_upper (s : str) :
  forallb caja_reversible s = true -> lower (upper s) = lower s.
Proof.
  unfold lower, upper. induction s as [|c s IH]; intros H; [reflexivity|].
  simpl in H. apply andb_true_iff in H as [Hc Hs].
  simpl. rewrite map_app, (lower_upper_cp c Hc), (IH Hs). reflexivity.
Qed.

Lemma empieza_palabra_lower (s : str) :
  empieza_palabra (lower s) = empieza_palabra s.
Proof. destruct s; simpl; [reflexivity|]. now rewrite lower_cp_blanco. Qed.

Lemma split_lower (s : str) : split (lower s) = map lower (split s).
Proof.
  induction s as [|c s IH]; [reflexivity|].
  change (lower (c :: s)) with (lower_cp c :: lower s).
  cbn [split]. rewrite lower_cp_blanco, empieza_palabra_lower, IH.
  destruct (isspace c); [reflexivity|].
  destruct (empieza_palabra s); [|reflexivity].
  destruct (split s); reflexivity.
Qed.

Lemma lower_latin1 (s : str) : es_latin1 s = true -> es_latin1 (lower s) = true.
Proof.
  unfold es_latin1, lower. rewrite !forallb_forall. intros H x I.
  apply in_map_iff in I as [c [<- I]]. specialize (H c I).
  unfold latin1, lower_cp in *. apply N.leb_le in H. apply N.leb_le.
  destruct (es_mayuscula c) eqn:M; [|exact H].
  apply es_mayuscula_spec in M. lia.
Qed.

Lemma upper_latin1 (s : str) :
  es_latin1 s = true -> forallb caja_reversible s = true ->
  es_latin1 (upper s) = true.
Proof.
  unfold es_latin1, upper. rewrite !forallb_forall. intros H R x I.
  apply in_flat_map in I as [c [I J]]. specialize (H c I). specialize (R c I).
  unfold latin1, caja_reversible, upper_cp in *.
  apply N.leb_le in H. apply N.leb_le.
  apply negb_true_iff, orb_false_iff in R as [R R3].
  apply orb_false_iff in R as [R1 R2].
  rewrite R1, R2, R3 in J.
  destruct (es_minuscula_par c) eqn:M; destruct J as [<-|[]]; lia.
Qed.

(** X18: for raw labels within Latin-1, the normalised leaf name depends
    only on the tokens of the label, taken in lower case: blanks around
    and between the tokens do not matter, lower-casing the label changes
    nothing, and neither does upper-casing it when it has no sharp s,
    micro sign or y with diaeresis (the letters whose capital is not
    within Latin-1).  The lower-cased and the upper-cased label are
    again within Latin-1. *)
Theorem X18_caja_y_blancos (s : str) :
  es_latin1 s = true ->
  (es_latin1 (lower s) = true
   /\ normalizar_nombre_comuna (lower s) = normalizar_nombre_comuna s)
  /\ (forallb caja_reversible s = true ->
      es_latin1 (upper s) = true
      /\ normalizar_nombre_comuna (upper s) = normalizar_nombre_comuna s)
  /\ (forall s', es_latin1 s' = true -> split s' = split s ->
                 normalizar_nombre_comuna s' = normalizar_nombre_comuna s).
Proof.
  intros L. split; [split; [now apply lower_latin1|]|split].
  - unfold normalizar_nombre_comuna, nombre_calculado. now rewrite lower_idem.
  - intros H. split; [now apply upper_latin1|].
    unfold normalizar_nombre_comuna, nombre_calculado. now rewrite (lower_upper s H).
  - intros s' _ E. unfold normalizar_nombre_comuna, nombre_calculado.
    now rewrite !split_lower, E.
Qed.

Lemma X18_caja_y_blancos_witness :
  normalizar_nombre_comuna (upper (txt "Viña del Mar")) = txt "Viña del Mar"
  /\ normalizar_nombre_comuna (txt "  Viña   del Mar ") = txt "Viña del Mar".
Proof.
  destruct (X18_caja_y_blancos (txt "Viña del Mar") eq_refl) as [_ [H2 H3]].
  split.
  - rewrite (proj2 (H2 eq_refl)); reflexivity.
  - rewrite (H3 (txt "  Viña   del Mar ") eq_refl); reflexivity.
Defined.

(** ** Blanks of a normalised name *)

Lemma es_una_palabra_spec (w : str) :
  es_una_palabra w = true <-> w <> [] /\ forallb no_blanco w = true.
Proof.
  unfold es_una_palabra. rewrite andb_true_iff, negb_true_iff, str_eqb_neq. tauto.
Qed.

Lemma espaciado_palabra (w r : str) (b : bool) :
  es_una_palabra w = true -> espaciado b (w ++ r) = espaciado false r.
Proof.
  intros H. apply es_una_palabra_spec in H as [Hn Hb]. revert b.
  induction w as [|c w IH]; intros b; [congruence|].
  simpl in Hb. apply andb_true_iff in Hb as [Hc Hw].
  unfold no_blanco in Hc. apply negb_true_iff in Hc.
  change ((c :: w) ++ r) with (c :: (w ++ r)). cbn [espaciado]. rewrite Hc.
  destruct w as [|c' w']; [reflexivity|]. apply IH; [discriminate|assumption].
Qed.

Lemma join_espaciado (ws : list str) :
  ws <> [] -> Forall (fun w => es_una_palabra w = true) ws ->
  join [32] ws <> [] /\ espaciado true (join [32] ws) = true.
Proof.
  induction ws as [|w ws IH]; intros N F; [congruence|].
  inversion F as [|? ? Hw Hws]; subst.
  destruct ws as [|w2 l].
  - simpl. split.
    + apply es_una_palabra_spec in Hw. tauto.
    + rewrite <- (app_nil_r w). now rewrite espaciado_palabra.
  - destruct (IH ltac:(discriminate) Hws) as [_ IH2].
    change (join [32] (w :: w2 :: l)) with (w ++ [32] ++ join [32] (w2 :: l)).
    split.
    + apply es_una_palabra_spec in Hw as [Hn _]. destruct w; [congruence|discriminate].
    + rewrite espaciado_palabra by assumption. exact IH2.
Qed.

Lemma join_bien_espaciado (ws : list str) :
  Forall (fun w => es_una_palabra w = true) ws -> bien_espaciado (join [32] ws) = true.
Proof.
  intros F. destruct ws as [|w l]; [reflexivity|].
  destruct (join_espaciado (w :: l) ltac:(discriminate) F) as [N E].
  unfold bien_espaciado. destruct (join [32] (w :: l)); [congruence|exact E].
Qed.

Lemma split_palabras (s : str) : Forall (fun w => es_una_palabra w = true) (split s).
Proof.
  induction s as [|c s IH]; simpl; [constructor|].
  destruct (isspace c) eqn:Ec; [assumption|].
  assert (no_blanco c = true) as Hc by (unfold no_blanco; now rewrite Ec).
  destruct (empieza_palabra s).
  - destruct (split s) as [|w ws]; constructor.
    + unfold es_una_palabra. simpl. now rewrite Hc.
    + constructor.
    + inversion IH as [|? ? Hw _]; subst.
      apply es_una_palabra_spec in Hw as [_ Hw].
      apply es_una_palabra_spec. split; [discriminate|]. simpl. now rewrite Hc.
    + now inversion IH.
  - constructor; [|assumption]. unfold es_una_palabra. simpl. now rewrite Hc.
Qed.

Lemma title_cp_palabra (c : N) : isspace c = false -> es_una_palabra (title_cp c) = true.
Proof.
  intros Hc. unfold title_cp, upper_cp.
  destruct (c =? 223); [reflexivity|].
  destruct (es_minuscula_par c) eqn:E.
  - apply es_minuscula_par_spec in E. unfold es_una_palabra, no_blanco. simpl.
    destruct (isspace (c - 32)) eqn:S; [|reflexivity].
    apply isspace_spec in S. lia.
  - destruct (c =? 255); [reflexivity|]. destruct (c =? 181); [reflexivity|].
    unfold es_una_palabra, no_blanco. simpl. now rewrite Hc.
Qed.

Lemma lower_sin_blancos (w : str) :
  forallb no_blanco w = true -> forallb no_blanco (lower w) = true.
Proof.
  unfold lower, no_blanco. induction w as [|c w IH]; simpl; [reflexivity|].
  intros H. apply andb_true_iff in H as [Hc Hw].
  now rewrite lower_cp_blanco, Hc, IH.
Qed.

Lemma palabra_app (a b : str) :
  es_una_palabra a = true -> forallb no_blanco b = true ->
  es_una_palabra (a ++ b) = true.
Proof.
  intros Ha Hb. apply es_una_palabra_spec in Ha as [Hn Ha].
  apply es_una_palabra_spec. split.
  - destruct a; [congruence|discriminate].
  - rewrite forallb_app, Ha, Hb. reflexivity.
Qed.

Lemma capitalize_palabra (w : str) :
  es_una_palabra w = true -> es_una_palabra (capitalize w) = true.
Proof.
  intros H. apply es_una_palabra_spec in H as [Hn Hb].
  destruct w as [|c w]; [congruence|]. simpl in Hb.
  apply andb_true_iff in Hb as [Hc Hw]. unfold no_blanco in Hc.
  apply negb_true_iff in Hc. simpl.
  apply palabra_app; [now apply title_cp_palabra|now apply lower_sin_blancos].
Qed.

Lemma lower_palabra (w : str) :
  es_una_palabra w = true -> es_una_palabra (lower w) = true.
Proof.
  intros H. apply es_una_palabra_spec in H as [Hn Hb].
  apply es_una_palabra_spec. split.
  - destruct w; [congruence|discriminate].
  - now apply lower_sin_blancos.
Qed.

Lemma capitalizar_palabra_palabra (w : str) :
  es_una_palabra w = true -> es_una_palabra (capitalizar_palabra w) = true.
Proof.
  intros H. unfold capitalizar_palabra.
  destruct (set_in (upper w) excepciones) eqn:Ex.
  - apply set_in_In in Ex.
    assert (forallb es_una_palabra excepciones = true) as F by reflexivity.
    rewrite forallb_forall in F. auto.
  - destruct (startswith w [enie_min]) eqn:Es; [|now apply capitalize_palabra].
    apply es_una_palabra_spec in H as [Hn Hb].
    destruct w as [|c w]; [congruence|]. simpl in Hb.
    apply andb_true_iff in Hb as [_ Hw]. cbn [skipn].
    change (enie_may :: capitalize w) with ([enie_may] ++ capitalize w).
    apply palabra_app; [reflexivity|].
    destruct w as [|c' w']; [reflexivity|].
    assert (es_una_palabra (capitalize (c' :: w')) = true) as Hp.
    { apply capitalize_palabra. apply es_una_palabra_spec. split; [discriminate|assumption]. }
    apply es_una_palabra_spec in Hp. tauto.
Qed.

Lemma startswith_partes (s w : str) :
  startswith s w = true -> s = w ++ skipn (List.length w) s.
Proof.
  revert s. induction w as [|y w IH]; intros [|x s]; simpl; try congruence.
  intros H. apply andb_true_iff in H as [H1 H2]. apply N.eqb_eq in H1. subst.
  f_equal. auto.
Qed.

Lemma sub_palabra_go_saltar (w por : str) (k : nat) (s : str) (prev : option N) :
  exists prev',
    sub_palabra_go w por prev k s = sub_palabra_go w por prev' 0 (skipn k s).
Proof.
  revert s prev. induction k as [|k IH]; intros s prev; [now exists prev|].
  destruct s as [|c s]; [now exists prev|]. simpl. apply IH.
Qed.

(** A substitution of a word by a word keeps the blanks where they are. *)
Lemma sub_palabra_espaciado (w por : str) :
  es_una_palabra w = true -> es_una_palabra por = true ->
  forall (m : nat) (s : str) (prev : option N) (b : bool),
    (List.length s <= m)%nat ->
    espaciado b (sub_palabra_go w por prev 0 s) = espaciado b s.
Proof.
  intros Hw Hp. induction m as [|m IH]; intros s prev b L.
  - destruct s; [reflexivity|simpl in L; lia].
  - destruct s as [|c s]; [reflexivity|]. rewrite sub_palabra_go_cons.
    destruct (frontera prev (c :: s) && startswith (c :: s) w) eqn:M.
    + destruct (frontera (ultimo prev w) (skipn (List.length w) (c :: s))) eqn:F.
      * cbn [andb]. apply andb_true_iff in M as [_ St].
        destruct (sub_palabra_go_saltar w por (List.length w - 1) s (Some c))
          as [prev' ->].
        pose proof (startswith_partes _ _ St) as Es.
        assert (1 <= List.length w)%nat as Lw.
        { apply es_una_palabra_spec in Hw as [Nw _].
          destruct w; [congruence|simpl; lia]. }
        assert (skipn (List.length w - 1) s = skipn (List.length w) (c :: s)) as ->.
        { destruct (List.length w) as [|k]; [lia|]. simpl. now rewrite Nat.sub_0_r. }
        set (resto := skipn (List.length w) (c :: s)) in *.
        assert (List.length resto <= m)%nat as Lr.
        { unfold resto. rewrite length_skipn.
          change (List.length (c :: s)) with (S (List.length s)) in *. lia. }
        rewrite Es, !espaciado_palabra by assumption.
        now apply IH.
      * cbn [andb espaciado].
        rewrite !(IH s (Some c)) by (simpl in L; lia). reflexivity.
    + cbn [andb espaciado].
      rewrite !(IH s (Some c)) by (simpl in L; lia). reflexivity.
Qed.

Lemma sub_palabra_bien_espaciado (w por s : str) :
  es_una_palabra w = true -> es_una_palabra por = true ->
  bien_espaciado s = true -> bien_espaciado (sub_palabra w por s) = true.
Proof.
  intros Hw Hp H. unfold bien_espaciado, sub_palabra in *.
  destruct (sub_palabra_go w por None 0 s) as [|c r] eqn:E; [reflexivity|].
  rewrite <- E, (sub_palabra_espaciado w por Hw Hp (List.length s)) by lia.
  destruct s; [discriminate E|exact H].
Qed.

Lemma aplicar_bien_espaciado (cs : dict str str) (s : str) :
  forallb par_de_palabras cs = true ->
  bien_espaciado s = true ->
  bien_espaciado (fold_left (fun n ic => sub_palabra (fst ic) (snd ic) n) cs s) = true.
Proof.
  revert s. induction cs as [|[w por] cs IH]; intros s F H; simpl; [assumption|].
  simpl in F. apply andb_true_iff in F as [Fw Fs].
  unfold par_de_palabras in Fw. simpl in Fw. apply andb_true_iff in Fw as [Fa Fb].
  apply IH; [assumption|]. now apply sub_palabra_bien_espaciado.
Qed.

(** X19: a normalised leaf name and a normalised region name never begin
    or end with a blank and never hold two blanks in a row: their tokens
    are separated by single spaces, whatever the blanks of the raw
    label. *)
Theorem X19_blancos_canonicos (s : str) :
  bien_espaciado (normalizar_nombre_comuna s) = true
  /\ bien_espaciado (normalizar_nombre_region s) = true.
Proof.
  split.
  - assert (bien_espaciado (nombre_calculado s) = true) as H.
    { unfold nombre_calculado, aplicar_correcciones.
      apply aplicar_bien_espaciado; [reflexivity|].
      apply join_bien_espaciado. apply Forall_forall. intros w I.
      apply in_map_iff in I as [p [<- I]]. apply capitalizar_palabra_palabra.
      pose proof (split_palabras (lower s)) as F. rewrite Forall_forall in F. auto. }
    unfold normalizar_nombre_comuna.
    destruct (dict_get _ nombres_especificos) as [v|] eqn:G; [|exact H].
    apply dict_get_identidad in G; [now subst|reflexivity].
  - unfold normalizar_nombre_region.
    destruct (dict_get _ mapeo_especial) as [v|] eqn:G.
    + apply dict_get_In in G.
      assert (forallb (fun e => bien_espaciado (snd e)) mapeo_especial = true) as F
        by reflexivity.
      rewrite forallb_forall in F. exact (F _ G).
    + apply join_bien_espaciado.
      pose proof (split_palabras (quitar_prefijo prefijos_region s)) as F.
      destruct (split (quitar_prefijo prefijos_region s)) as [|p0 resto];
        [constructor|].
      inversion F as [|? ? H0 Hr]; subst.
      constructor; [now apply capitalize_palabra|].
      apply Forall_forall. intros w I. apply in_map_iff in I as [p [<- I]].
      rewrite Forall_forall in Hr. specialize (Hr p I).
      destruct (set_in (upper p) conectores_region);
        [now apply lower_palabra|now apply capitalize_palabra].
Qed.

(** ** Letter case of region and candidate labels *)

Lemma upper_lower_cp (c : N) : upper_cp (lower_cp c) = upper_cp c.
Proof.
  unfold lower_cp. destruct (es_mayuscula c) eqn:M; [|reflexivity].
  apply es_mayuscula_spec in M. unfold upper_cp.
  assert (es_minuscula_par (c + 32) = true) as ->
    by (apply es_minuscula_par_spec; lia).
  assert (es_minuscula_par c = false) as ->.
  { destruct (es_minuscula_par c) eqn:E; [|reflexivity].
    apply es_minuscula_par_spec in E. lia. }
  destruct (N.eqb_spec c 223); [lia|]. destruct (N.eqb_spec c 255); [lia|].
  destruct (N.eqb_spec c 181); [lia|]. f_equal. lia.
Qed.

Lemma upper_lower (s : str) : upper (lower s) = upper s.
Proof.
  unfold upper, lower. induction s as [|c s IH]; simpl; [reflexivity|].
  now rewrite upper_lower_cp, IH.
Qed.

Lemma title_lower_cp (c : N) : title_cp (lower_cp c) = title_cp c.
Proof.
  unfold title_cp. rewrite upper_lower_cp.
  unfold lower_cp. destruct (es_mayuscula c) eqn:M; [|reflexivity].
  apply es_mayuscula_spec in M.
  destruct (N.eqb_spec (c + 32) 223); [lia|]. destruct (N.eqb_spec c 223); [lia|].
  reflexivity.
Qed.

Lemma capitalize_lower (w : str) : capitalize (lower w) = capitalize w.
Proof.
  destruct w as [|c w]; [reflexivity|].
  change (lower (c :: w)) with (lower_cp c :: lower w). cbn [capitalize].
  now rewrite title_lower_cp, lower_idem.
Qed.

Lemma startswith_ci_lower (s a : str) : startswith_ci (lower s) a = startswith_ci s a.
Proof.
  revert s. induction a as [|p a IH]; intros [|c s]; simpl; try reflexivity.
  now rewrite lower_cp_idem, IH.
Qed.

Lemma lstrip_lower (s : str) : lstrip (lower s) = lower (lstrip s).
Proof.
  induction s as [|c s IH]; [reflexivity|].
  change (lower (c :: s)) with (lower_cp c :: lower s).
  cbn [lstrip]. rewrite lower_cp_blanco. destruct (isspace c); [exact IH|reflexivity].
Qed.

Lemma quitar_prefijo_lower (alts : list str) (s : str) :
  quitar_prefijo alts (lower s) = lower (quitar_prefijo alts s).
Proof.
  induction alts as [|a alts IH]; [reflexivity|]. cbn [quitar_prefijo].
  rewrite startswith_ci_lower. unfold lower at 1 2. rewrite skipn_map.
  fold (lower (skipn (List.length a) s)).
  assert (empieza_blanco (lower (skipn (List.length a) s))
          = empieza_blanco (skipn (List.length a) s)) as ->.
  { destruct (skipn (List.length a) s); simpl; [reflexivity|apply lower_cp_blanco]. }
  destruct (startswith_ci s a && empieza_blanco (skipn (List.length a) s)).
  - apply lstrip_lower.
  - exact IH.
Qed.

(** X20: for raw labels within Latin-1, the letter case of a region
    label and of a candidate label does not matter: lower-casing the
    label changes neither the normalised region name nor the simplified
    candidate name, for any alias table, and neither does upper-casing it
    when it has no sharp s, micro sign or y with diaeresis. *)
Theorem X20_caja_de_etiquetas (tabla : dict str str) (s : str) :
  es_latin1 s = true ->
  normalizar_nombre_region (lower s) = normalizar_nombre_region s
  /\ simplificar_nombre_candidato tabla (lower s)
     = simplificar_nombre_candidato tabla s
  /\ (forallb caja_reversible s = true ->
      es_latin1 (upper s) = true
      /\ normalizar_nombre_region (upper s) = normalizar_nombre_region s
      /\ simplificar_nombre_candidato tabla (upper s)
         = simplificar_nombre_candidato tabla s).
Proof.
  intros L.
  assert (forall x, normalizar_nombre_region (lower x) = normalizar_nombre_region x) as Hr.
  { intros x. unfold normalizar_nombre_region.
    rewrite upper_lower, quitar_prefijo_lower, split_lower.
    destruct (dict_get (upper x) mapeo_especial); [reflexivity|].
    destruct (split (quitar_prefijo prefijos_region x)) as [|p0 resto];
      [reflexivity|].
    cbn [map]. rewrite capitalize_lower, map_map. do 2 f_equal.
    apply map_ext. intros p. now rewrite upper_lower, lower_idem, capitalize_lower. }
  assert (forall x, simplificar_nombre_candidato tabla (lower x)
                    = simplificar_nombre_candidato tabla x) as Hc.
  { intros x. unfold simplificar_nombre_candidato.
    rewrite upper_lower, split_lower, <- map_rev.
    destruct (rev (split x)); cbn [map]; [reflexivity|now rewrite lower_idem]. }
  split; [apply Hr|]. split; [apply Hc|].
  intros H. split; [now apply upper_latin1|]. split.
  - rewrite <- (Hr (upper s)), (lower_upper s H). apply Hr.
  - rewrite <- (Hc (upper s)), (lower_upper s H). apply Hc.
Qed.

Lemma X20_caja_de_etiquetas_witness :
  normalizar_nombre_region (upper (txt "de la Costa")) = txt "La Costa"
  /\ simplificar_nombre_candidato [] (upper (txt "Juan Pérez")) = txt "p_rez".
Proof.
  destruct (X20_caja_de_etiquetas [] (txt "de la Costa") eq_refl) as [_ [_ H1]].
  destruct (X20_caja_de_etiquetas [] (txt "Juan Pérez") eq_refl) as [_ [_ H2]].
  split.
  - rewrite (proj1 (proj2 (H1 eq_refl))). reflexivity.
  - rewrite (proj2 (proj2 (H2 eq_refl))). reflexivity.
Defined.
